(** * AnyOfField: branch matching and branch switching of a schema union

    A shallow embedding of the [AnyOfField] component of
    react-jsonschema-form (the part of [src/typings.d.ts] after the type
    declarations): the constructor, [componentWillReceiveProps],
    [getMatchingOption], [onOptionChange] and [render].

    Definitions:
    - [JS]: the JavaScript values the component computes with (JSON data,
      property tables in enumeration order, truthiness, [ToString],
      [parseInt]) and completions that are normal or a throw;
    - [AnyOfField]: the component over immutable values, with the validator
      and the default computer as parameters;
    - [Sample]: a validator, a default computer and schemas to run it on;
    - [Store]: [getMatchingOption] again, statement by statement, over a
      store of mutable objects and arrays, where a clone shares the nested
      collections of its original;
    - [SampleStore]: two stores to run it on;
    - [Render]: what [render] hands to the select widget and to the schema
      field.

    Theorems:
    - [PropsFacts], [MatchingFacts], [SwitchingFacts]: the value model;
    - [StoreFacts]: what a run leaves untouched in the store;
    - [ReifyFacts], [Refinement]: a run over the store computes what the
      value model computes on the values that the arguments stand for;
    - the properties of the specification, and then further properties of
      matching, of the validated schema, of switching and of rendering. *)

From Stdlib Require Import ZArith String Ascii List Lia Bool DecimalString
  DecimalPos.
From stdpp Require Import base list option.

Local Open Scope string_scope.
Local Open Scope Z_scope.

(* ===================================================================== *)
(** ** JavaScript values *)
(* ===================================================================== *)

Module JS.

(** What a [throw] carries. [SchemaReferenceError] is the error of a [$ref]
    that has no definition; everything the language itself raises here
    (reading a property of [undefined], calling a value that is no function,
    deleting a property that cannot be deleted in strict code) is a
    [TypeError]. *)
Inductive Error : Type :=
| TypeError
| SchemaReferenceError.

(** The result of running a piece of code that may throw. *)
Inductive Completion (A : Type) : Type :=
| Normal (a : A)
| Throw (e : Error).
Arguments Normal {A} a.
Arguments Throw {A} e.

Definition bind {A B : Type} (c : Completion A) (k : A -> Completion B)
  : Completion B :=
  match c with
  | Normal a => k a
  | Throw e => Throw e
  end.

Declare Scope js_scope.
Delimit Scope js_scope with js.
Notation "x <- c ;; k" := (bind c (fun x => k))
  (at level 100, c at next level, right associativity) : js_scope.

(** JSON-compatible data, plus [undefined]. Numbers are the integers (the
    component only computes with array indices); an object is its table of
    own properties in enumeration order; in an array, [JUndefined] is an
    element that is [undefined] or a hole, which read the same. Schemas
    are such objects too. *)
#[warnings="-register-all"]
Inductive JSON : Type :=
| JUndefined
| JNull
| JBool (b : bool)
| JNum (n : Z)
| JStr (s : string)
| JArr (items : list JSON)
| JObj (fields : list (string * JSON)).

Abbreviation Obj := (list (string * JSON)).

(** [ToBoolean]. *)
Definition truthy (v : JSON) : bool :=
  match v with
  | JUndefined | JNull => false
  | JBool b => b
  | JNum n => negb (n =? 0)
  | JStr s => negb (String.eqb s "")
  | JArr _ | JObj _ => true
  end.

Definition isNull (v : JSON) : bool :=
  match v with JNull => true | _ => false end.

(** [v === s] for a string literal [s]. *)
Definition is_string (s : string) (v : JSON) : bool :=
  match v with JStr s' => String.eqb s' s | _ => false end.

(** *** Property keys that are array indices

    A key is an array index when it is the canonical decimal form of an
    integer below 2^32 - 1; such keys are enumerated first, in ascending
    order, before all other keys in insertion order. *)

Definition key_of_index (n : N) : string :=
  NilZero.string_of_uint (N.to_uint n).

Definition index_of_key (k : string) : option N :=
  match NilZero.uint_of_string k with
  | Some u =>
      let n := N.of_uint u in
      if String.eqb (key_of_index n) k && (n <? 4294967295)%N
      then Some n else None
  | None => None
  end.

Definition index_keys (len : nat) : list string :=
  List.map (fun i => key_of_index (N.of_nat i)) (seq 0 len).

(** *** Property tables

    Shared by JSON objects and by the objects of the store in [Store], whose
    property values are store values. *)
Section Props.
Context {V : Type}.

Fixpoint props_lookup (o : list (string * V)) (k : string) : option V :=
  match o with
  | [] => None
  | (k', v) :: o' => if String.eqb k' k then Some v else props_lookup o' k
  end.

Definition props_has (o : list (string * V)) (k : string) : bool :=
  match props_lookup o k with Some _ => true | None => false end.

Definition props_keys (o : list (string * V)) : list string :=
  List.map fst o.

(** Overwriting an existing property keeps its place. *)
Fixpoint props_replace (o : list (string * V)) (k : string) (v : V)
  : list (string * V) :=
  match o with
  | [] => []
  | (k', v') :: o' =>
      if String.eqb k' k then (k, v) :: o'
      else (k', v') :: props_replace o' k v
  end.

(** A new array-index key goes after the smaller index keys. *)
Fixpoint props_insert_index (n : N) (k : string) (v : V)
    (o : list (string * V)) : list (string * V) :=
  match o with
  | [] => [(k, v)]
  | (k', v') :: o' =>
      match index_of_key k' with
      | Some n' =>
          if (n' <? n)%N then (k', v') :: props_insert_index n k v o'
          else (k, v) :: o
      | None => (k, v) :: o
      end
  end.

(** [o[k] = v] on an ordinary object, for a key [k] other than
    [__proto__]; for every key, what [CreateDataProperty] does. *)
Definition props_set (o : list (string * V)) (k : string) (v : V)
  : list (string * V) :=
  if props_has o k then props_replace o k v
  else match index_of_key k with
       | Some n => props_insert_index n k v o
       | None => o ++ [(k, v)]
       end.

(** [delete o[k]]. *)
Definition props_delete (o : list (string * V)) (k : string)
  : list (string * V) :=
  List.filter (fun kv => negb (String.eqb (fst kv) k)) o.

(** Every own key of the source, in order, is read from the source and
    defined on the target with [CreateDataProperty]: how the spread syntax
    copies. *)
Definition props_define (target source : list (string * V))
  : list (string * V) :=
  fold_left
    (fun t k => match props_lookup source k with
                | Some v => props_set t k v
                | None => t
                end)
    (props_keys source) target.

(** [Object.assign(target, source)]: every own key of the source, in
    order, is read from the source and set on the target with [[Set]]. The
    targets of the component are object literals, which inherit the
    accessor [__proto__] of [Object.prototype]: setting that key makes no
    own property. Its setter gives the target another prototype when the
    value is an object or [null]; a table of own properties does not
    record the prototype. Every other key becomes an own property, under
    any prototype that JSON data can be. *)
Definition props_assign (target source : list (string * V))
  : list (string * V) :=
  props_define target (props_delete source "__proto__").

(** [{...source}]: every own key is copied, [__proto__] too. *)
Definition props_spread (source : list (string * V)) : list (string * V) :=
  props_define [] source.
End Props.

(** [o.k] for a schema keyword [k] ([properties], [anyOf], [allOf], [type],
    [$ref]): the own property, else [undefined] (none of these names is on a
    built-in prototype). *)
Definition get (o : Obj) (k : string) : JSON :=
  match props_lookup o k with
  | Some v => v
  | None => JUndefined
  end.

(** [v.k] for a keyword [k] on an arbitrary value: reading a property of
    [undefined] or [null] throws, a primitive or an array has no such
    property. *)
Definition get_member (v : JSON) (k : string) : Completion JSON :=
  match v with
  | JUndefined | JNull => Throw TypeError
  | JObj o => Normal (get o k)
  | _ => Normal JUndefined
  end.

(** [k in v]: throws unless [v] is an object (arrays have no keyword
    properties). *)
Definition has_member (k : string) (v : JSON) : Completion bool :=
  match v with
  | JObj o => Normal (props_has o k)
  | JArr _ => Normal false
  | _ => Throw TypeError
  end.

(** The keys that [Object.keys(v)] lists and that [for (key in v)] visits,
    for a truthy [v] (both uses in the component are guarded by
    truthiness; a true boolean and a number have none). *)
Definition enumerable_keys (v : JSON) : list string :=
  match v with
  | JObj o => props_keys o
  | JArr l => index_keys (List.length l)
  | JStr s => index_keys (String.length s)
  | _ => []
  end.

(** *** [ToString] and [parseInt(_, 10)] *)

Fixpoint strip_trailing_zeros (s : string) : string :=
  match s with
  | EmptyString => EmptyString
  | String c r =>
      let r' := strip_trailing_zeros r in
      if Ascii.eqb c "0" && String.eqb r' "" then EmptyString
      else String c r'
  end.

(** Integers below 10^21 print in plain decimal, larger ones with an
    exponent. *)
Definition number_to_string (n : Z) : string :=
  if Z.abs n <? 10 ^ 21 then NilZero.string_of_int (Z.to_int n)
  else
    let digits := NilZero.string_of_uint (N.to_uint (Z.to_N (Z.abs n))) in
    let sign := if n <? 0 then "-" else "" in
    let exponent :=
      NilZero.string_of_uint (Nat.to_uint (Nat.pred (String.length digits))) in
    match digits with
    | EmptyString => EmptyString
    | String d rest =>
        let frac := strip_trailing_zeros rest in
        sign ++ String d (if String.eqb frac "" then "" else "." ++ frac)
             ++ "e+" ++ exponent
    end.

Fixpoint ToString (v : JSON) : string :=
  match v with
  | JUndefined => "undefined"
  | JNull => "null"
  | JBool true => "true"
  | JBool false => "false"
  | JNum n => number_to_string n
  | JStr s => s
  | JArr l =>
      (fix join (l : list JSON) : string :=
         match l with
         | [] => ""
         | x :: rest =>
             let sx := match x with
                       | JUndefined | JNull => ""
                       | _ => ToString x
                       end in
             match rest with
             | [] => sx
             | _ => sx ++ "," ++ join rest
             end
         end) l
  | JObj _ => "[object Object]"
  end.

(** [StrWhiteSpaceChar]: the white space and the line terminators that
    [parseInt] skips. Strings hold UTF-8, as string literals do. In one
    byte: U+0009 to U+000D and U+0020; the byte 160 on its own, which is no
    UTF-8, is read as the Latin-1 form of U+00A0. In two bytes: U+00A0. In
    three bytes: U+1680, U+2000 to U+200A, U+2028, U+2029, U+202F, U+205F,
    U+3000 and U+FEFF. *)
Definition is_whitespace (c : ascii) : bool :=
  let n := nat_of_ascii c in
  ((9 <=? n)%nat && (n <=? 13)%nat) || (n =? 32)%nat || (n =? 160)%nat.

Definition is_whitespace2 (c1 c2 : ascii) : bool :=
  (nat_of_ascii c1 =? 194)%nat && (nat_of_ascii c2 =? 160)%nat.

Definition is_whitespace3 (c1 c2 c3 : ascii) : bool :=
  let n1 := nat_of_ascii c1 in
  let n2 := nat_of_ascii c2 in
  let n3 := nat_of_ascii c3 in
  ((n1 =? 225)%nat && (n2 =? 154)%nat && (n3 =? 128)%nat)
  || ((n1 =? 226)%nat && (n2 =? 128)%nat
      && (((128 <=? n3)%nat && (n3 <=? 138)%nat)
          || (n3 =? 168)%nat || (n3 =? 169)%nat || (n3 =? 175)%nat))
  || ((n1 =? 226)%nat && (n2 =? 129)%nat && (n3 =? 159)%nat)
  || ((n1 =? 227)%nat && (n2 =? 128)%nat && (n3 =? 128)%nat)
  || ((n1 =? 239)%nat && (n2 =? 187)%nat && (n3 =? 191)%nat).

Fixpoint skip_whitespace (s : string) : string :=
  match s with
  | EmptyString => EmptyString
  | String c1 r1 =>
      if is_whitespace c1 then skip_whitespace r1
      else
        match r1 with
        | EmptyString => s
        | String c2 r2 =>
            if is_whitespace2 c1 c2 then skip_whitespace r2
            else
              match r2 with
              | EmptyString => s
              | String c3 r3 =>
                  if is_whitespace3 c1 c2 c3 then skip_whitespace r3
                  else s
              end
        end
  end.

Definition digit_of (c : ascii) : option Z :=
  let n := nat_of_ascii c in
  if (48 <=? n)%nat && (n <=? 57)%nat then Some (Z.of_nat (n - 48)) else None.

(** The value of the longest prefix of decimal digits; [None] when there is
    no digit. *)
Fixpoint parse_digits (acc : option Z) (s : string) : option Z :=
  match s with
  | EmptyString => acc
  | String c r =>
      match digit_of c with
      | Some d =>
          parse_digits
            (Some (10 * (match acc with Some a => a | None => 0 end) + d)) r
      | None => acc
      end
  end.

(** [parseInt(v, 10)]; [None] is [NaN]. *)
Definition parseInt (v : JSON) : option Z :=
  let s := skip_whitespace (ToString v) in
  let '(sign, s) :=
    match s with
    | String "-" r => (-1, r)
    | String "+" r => (1, r)
    | _ => (1, s)
    end in
  option_map (Z.mul sign) (parse_digits None s).

(** [a[i]] for a number [i]: [None] is [undefined]. *)
Definition array_get {A : Type} (a : list A) (i : Z) : option A :=
  if i <? 0 then None else a !! Z.to_nat i.

(** [a.splice(i, 1)] on a copy, for an index [i] of [a]. *)
Definition remove_at {A : Type} (i : nat) (a : list A) : list A :=
  firstn i a ++ skipn (S i) a.

End JS.


(* ===================================================================== *)
(** ** The component over immutable values *)
(* ===================================================================== *)

Module AnyOfField.
Import JS.
Local Open Scope js_scope.

(** *** Collaborators from [utils] *)

(** Modelled from the spec: [guessType] of [utils] is not part of the
    sources at hand. The spec only uses it to ask whether "the current
    data's runtime shape is an object/mapping"; the other names are the JSON
    type names. *)
Definition guessType (value : JSON) : string :=
  match value with
  | JArr _ => "array"
  | JStr _ => "string"
  | JUndefined | JNull => "null"
  | JBool _ => "boolean"
  | JNum _ => "number"
  | JObj _ => "object"
  end.

Definition definitions_prefix : string := "#/definitions/".

(** The name that a pointer [#/definitions/<name>] refers to. *)
Fixpoint strip_prefix (p s : string) : option string :=
  match p, s with
  | EmptyString, _ => Some s
  | String a p', String b s' =>
      if Ascii.eqb a b then strip_prefix p' s' else None
  | String _ _, EmptyString => None
  end.

(** Modelled from the spec: [findSchemaDefinition] of [utils] is not part of
    the sources at hand. Spec, Resolver: "looks it up by exact key in
    [definitions]; fails with a [SchemaReferenceError] if absent"; the
    pointer of the spec's example is [#/definitions/Foo] for the entry
    [Foo]. One lookup, no chain following. *)
Definition findSchemaDefinition (ref : JSON) (definitions : JSON)
  : Completion JSON :=
  match ref, definitions with
  | JStr r, JObj defs =>
      match strip_prefix definitions_prefix r with
      | Some name =>
          match props_lookup defs name with
          | Some schema => Normal schema
          | None => Throw SchemaReferenceError
          end
      | None => Throw SchemaReferenceError
      end
  | _, _ => Throw SchemaReferenceError
  end.

(** *** The data of one component instance *)

(** The props the component reads: [formData], [options] (an array of
    objects) and [registry.definitions]. *)
Record Props : Type := mkProps {
  formData : JSON;
  options : list Obj;
  definitions : JSON;
}.

(** An instance: its current props and [this.state.selectedOption]. *)
Record Component : Type := mkComponent {
  props : Props;
  selectedOption : Z;
}.

Section WithCollaborators.

(** [isValid(schema, data)] of [validate] and
    [computeDefaults(schema, parentDefaults, definitions)] of [utils]:
    the external validator and default computer, any pure functions. *)
Variable isValid : JSON -> JSON -> bool.
Variable computeDefaults : JSON -> JSON -> JSON -> JSON.

(** *** getMatchingOption *)

(** [{ anyOf: Object.keys(option.properties).map(key => ({ required: [key] })) }] *)
Definition requiresAnyOf (option : Obj) : Obj :=
  [("anyOf",
    JArr (List.map (fun key => JObj [("required", JArr [JStr key])])
                   (enumerable_keys (get option "properties"))))].

(** The branch [if (option.anyOf)]: a shallow clone whose [allOf] is a
    fresh array (empty, or a copy of the option's) with [requiresAnyOf]
    pushed. A truthy [allOf] that is no array has no [slice] or no
    [push]. *)
Definition wrapInAllOf (option : Obj) : Completion Obj :=
  let shallowClone := props_spread option in
  shallowClone <-
    (if negb (truthy (get shallowClone "allOf"))
     then Normal (props_set shallowClone "allOf" (JArr []))
     else match get shallowClone "allOf" with
          | JArr l => Normal (props_set shallowClone "allOf" (JArr l))
          | _ => Throw TypeError
          end) ;;
  match get shallowClone "allOf" with
  | JArr l =>
      Normal (props_set shallowClone "allOf"
                        (JArr (l ++ [JObj (requiresAnyOf option)])))
  | _ => Throw TypeError
  end.

(** The schema that is validated for an option with [properties]. *)
Definition augmentedSchema (definitions : JSON) (option : Obj)
  : Completion Obj :=
  augmented <-
    (if truthy (get option "anyOf") then wrapInAllOf option
     else Normal (props_assign
                    (props_assign [("definitions", definitions)] option)
                    (requiresAnyOf option))) ;;
  Normal (props_delete augmented "required").

(** The schema handed to the validator for [option], whichever branch of
    [if (option.properties)] is taken. *)
Definition matchSchema (definitions : JSON) (option : Obj)
  : Completion Obj :=
  if truthy (get option "properties")
  then augmentedSchema definitions option
  else Normal (props_set (props_spread option) "definitions" definitions).

(** The loop of [getMatchingOption], from index [i] over the options that
    are left. *)
Fixpoint getMatchingOption_from (formData : JSON) (definitions : JSON)
    (i : nat) (rest : list Obj) : Completion nat :=
  match rest with
  | [] => Normal 0%nat
  | option :: rest' =>
      schema <- matchSchema definitions option ;;
      if isValid (JObj schema) formData then Normal i
      else getMatchingOption_from formData definitions (S i) rest'
  end.

Definition getMatchingOption (formData : JSON) (options : list Obj)
    (definitions : JSON) : Completion nat :=
  getMatchingOption_from formData definitions 0%nat options.

(** Whether the validator accepts [formData] for the schema that
    [getMatchingOption] builds from [option]. *)
Definition optionMatches (formData definitions : JSON) (option : Obj)
  : bool :=
  match matchSchema definitions option with
  | Normal schema => isValid (JObj schema) formData
  | Throw _ => false
  end.

(** Branch [i] exists and validates, once augmented. *)
Definition matchesAt (formData : JSON) (options : list Obj)
    (definitions : JSON) (i : nat) : Prop :=
  exists option,
    options !! i = Some option /\
    optionMatches formData definitions option = true.

(** *** constructor and componentWillReceiveProps *)

Definition constructor (p : Props) : Completion Component :=
  i <- getMatchingOption (formData p) (options p) (definitions p) ;;
  Normal (mkComponent p (Z.of_nat i)).

(** The component after React has run [componentWillReceiveProps] and
    made [nextProps] the current props. *)
Definition componentWillReceiveProps (this : Component) (nextProps : Props)
  : Completion Component :=
  matchingOption <-
    getMatchingOption (formData nextProps) (options nextProps)
                      (definitions nextProps) ;;
  if isNull (JNum (Z.of_nat matchingOption))
     || (Z.of_nat matchingOption =? selectedOption this)
  then Normal (mkComponent nextProps (selectedOption this))
  else Normal (mkComponent nextProps (Z.of_nat matchingOption)).

(** *** onOptionChange *)

(** [if (newFormData.hasOwnProperty(key)) delete newFormData[key]] in
    strict code. The method is looked up on the data itself first. An
    array or a string owns [length] and its indices, none of which a
    string lets go of, and an array only its elements: the hole that is
    left reads as [undefined]. *)
Definition discardKey (newFormData : JSON) (key : string)
  : Completion JSON :=
  match newFormData with
  | JUndefined | JNull => Throw TypeError
  | JBool _ | JNum _ => Normal newFormData
  | JObj o =>
      if props_has o "hasOwnProperty" then Throw TypeError
      else if props_has o key then Normal (JObj (props_delete o key))
      else Normal newFormData
  | JStr s =>
      if String.eqb key "length" then Throw TypeError
      else match index_of_key key with
           | Some i =>
               if (i <? N.of_nat (String.length s))%N then Throw TypeError
               else Normal newFormData
           | None => Normal newFormData
           end
  | JArr l =>
      if String.eqb key "length" then Throw TypeError
      else match index_of_key key with
           | Some i =>
               if (i <? N.of_nat (List.length l))%N
               then Normal (JArr (<[N.to_nat i := JUndefined]> l))
               else Normal newFormData
           | None => Normal newFormData
           end
  end.

Fixpoint discardKeys (newFormData : JSON) (keys : list string)
  : Completion JSON :=
  match keys with
  | [] => Normal newFormData
  | key :: keys' =>
      newFormData <- discardKey newFormData key ;;
      discardKeys newFormData keys'
  end.

(** The keys that the loop over [optionsToDiscard] visits, in order. *)
Definition keysToDiscard (optionsToDiscard : list Obj) : list string :=
  flat_map
    (fun option =>
       if truthy (get option "properties")
       then enumerable_keys (get option "properties")
       else [])
    optionsToDiscard.

(** [options[selectedOption]], replaced by its definition when it has a
    [$ref]. An index outside the array reads [undefined], on which [in]
    throws. *)
Definition newOptionOf (options : list Obj) (definitions : JSON)
    (selectedOption : Z) : Completion JSON :=
  match array_get options selectedOption with
  | None => Throw TypeError
  | Some newOption =>
      hasRef <- has_member "$ref" (JObj newOption) ;;
      if hasRef
      then findSchemaDefinition (get newOption "$ref") definitions
      else Normal (JObj newOption)
  end.

(** [guessType(formData) === "object" &&
     (newOption.type === "object" || newOption.properties)] *)
Definition discardsOldProperties (formData newOption : JSON)
  : Completion bool :=
  if String.eqb (guessType formData) "object"
  then
    type <- get_member newOption "type" ;;
    if is_string "object" type then Normal true
    else
      properties <- get_member newOption "properties" ;;
      Normal (truthy properties)
  else Normal false.

(** [onOptionChange(option)]: the value passed to [onChange] and the
    component after [setState]. When [parseInt] gives [NaN],
    [options[NaN]] is [undefined] and the test for [$ref] throws.

    The value that is emitted is the object that the default computer
    returned, with the deletions done in it. The props of the result are
    the props object of the component, which the call does not replace;
    they are given with the values they had before the call, which are
    their values after it unless the default computer returned an object
    from inside them (see [reachable]). *)
Definition onOptionChange (this : Component) (option : JSON)
  : Completion (JSON * Component) :=
  match parseInt option with
  | None => Throw TypeError
  | Some selectedOption =>
      let p := props this in
      newOption <- newOptionOf (options p) (definitions p) selectedOption ;;
      discards <- discardsOldProperties (formData p) newOption ;;
      emitted <-
        (if discards : bool
         then
           let newFormData :=
             computeDefaults newOption (JObj []) (definitions p) in
           let optionsToDiscard :=
             remove_at (Z.to_nat selectedOption) (options p) in
           discardKeys newFormData (keysToDiscard optionsToDiscard)
         else Normal JUndefined) ;;
      Normal (emitted, mkComponent p selectedOption)
  end.

(** *** The states of an instance

    An instance is created by the constructor; from then on it receives
    props and option changes. A call that throws leaves no new state.

    The loop of [onOptionChange] deletes in the object that the default
    computer returned. When that object is shared with the props, as the
    [default] of a branch is when the default computer returns it, the
    props after the call are the props before it with these deletions done
    inside a branch or a definition. [inPlace p p'] is what is kept of
    that: the form data and the number of branches are those of [p]. *)
Definition inPlace (p p' : Props) : Prop :=
  formData p' = formData p /\
  List.length (options p') = List.length (options p).

Inductive reachable : Component -> Prop :=
| reachable_constructor p this :
    constructor p = Normal this ->
    reachable this
| reachable_receiveProps this nextProps this' :
    reachable this ->
    componentWillReceiveProps this nextProps = Normal this' ->
    reachable this'
| reachable_optionChange this option emitted this' p' :
    reachable this ->
    onOptionChange this option = Normal (emitted, this') ->
    inPlace (props this') p' ->
    reachable (mkComponent p' (selectedOption this')).

End WithCollaborators.

(** *** Vocabulary of the properties *)

(** An option whose [allOf], if it has one, is an array. *)
Definition allOfWellFormed (option : Obj) : bool :=
  match get option "allOf" with
  | JArr _ => true
  | v => negb (truthy v)
  end.

(** A schema that "declares type object or has properties". *)
Definition objectTyped (schema : JSON) : bool :=
  match schema with
  | JObj s => is_string "object" (get s "type") || truthy (get s "properties")
  | _ => false
  end.

Definition nullish (v : JSON) : bool :=
  match v with JUndefined | JNull => true | _ => false end.

(** Branch [i] declares the property name [key]. *)
Definition declares (options : list Obj) (i : nat) (key : string) : Prop :=
  exists option,
    options !! i = Some option /\
    truthy (get option "properties") = true /\
    In key (enumerable_keys (get option "properties")).

(** The object [o] with the properties named in [keys] deleted. *)
Definition withoutKeys (keys : list string) (o : Obj) : Obj :=
  List.filter (fun kv => negb (existsb (String.eqb (fst kv)) keys)) o.

(** Whether [keys] names the array index [p]. *)
Definition namesIndex (keys : list string) (p : nat) : bool :=
  existsb (fun key => match index_of_key key with
                      | Some n => (n =? N.of_nat p)%N
                      | None => false
                      end) keys.

(** The array [l] with the elements at the indices named in [keys]
    deleted: a hole is left, which reads [undefined]. *)
Definition withoutIndices (keys : list string) (l : list JSON) : list JSON :=
  imap (fun p x => if namesIndex keys p then JUndefined else x) l.

(** [v] after [delete v[key]] for every [key] of [keys] that it owns and
    lets go of. *)
Definition strippedOf (keys : list string) (v : JSON) : JSON :=
  match v with
  | JObj o => JObj (withoutKeys keys o)
  | JArr l => JArr (withoutIndices keys l)
  | _ => v
  end.

(** [key] is [length] or an index below [len]. *)
Definition lengthOrIndex (len : nat) (key : string) : bool :=
  String.eqb key "length"
  || match index_of_key key with
     | Some i => (i <? N.of_nat len)%N
     | None => false
     end.

(** Whether [if (v.hasOwnProperty(key)) delete v[key]] throws:
    [undefined] and [null] have no properties to read; an object with an
    own [hasOwnProperty] has no function there, as JSON data hold none; a
    string owns its [length] and its indices and lets go of none; an array
    does not let go of its [length]. *)
Definition refusesDiscard (v : JSON) (key : string) : bool :=
  match v with
  | JUndefined | JNull => true
  | JBool _ | JNum _ => false
  | JObj o => props_has o "hasOwnProperty"
  | JStr s => lengthOrIndex (String.length s) key
  | JArr _ => String.eqb key "length"
  end.

(** Whether [v] holds something under [key]: an own property of an object;
    the [length] or an element of an array, other than a hole or an
    element that is [undefined], which read the same; the [length] or a
    character of a string. *)
Definition holds (v : JSON) (key : string) : bool :=
  match v with
  | JObj o => props_has o key
  | JArr l =>
      String.eqb key "length"
      || match index_of_key key with
         | Some i =>
             match l !! N.to_nat i with
             | Some JUndefined | None => false
             | Some _ => true
             end
         | None => false
         end
  | JStr s => lengthOrIndex (String.length s) key
  | _ => false
  end.

End AnyOfField.

(* ===================================================================== *)
(** ** A validator and a default computer to run the component with *)
(* ===================================================================== *)

Module Sample.
Import JS.

Definition type_matches (t : string) (data : JSON) : bool :=
  match data with
  | JObj _ => String.eqb t "object"
  | JArr _ => String.eqb t "array"
  | JStr _ => String.eqb t "string"
  | JNum _ => String.eqb t "number" || String.eqb t "integer"
  | JBool _ => String.eqb t "boolean"
  | JNull => String.eqb t "null"
  | JUndefined => false
  end.

(** Modelled from the spec: the validator ([isValid] of [validate]) is an
    external collaborator, "standard JSON-Schema draft-06/07 semantics". This
    is the fragment with [type], [required], [properties], [anyOf], [allOf]
    and [$ref] into the [definitions] of the root schema; a schema that has
    a [$ref] is its target, and a [$ref] without target validates
    nothing. *)
Fixpoint validate (fuel : nat) (root : Obj) (schema data : JSON) : bool :=
  match fuel with
  | O => false
  | S fuel =>
      match schema with
      | JBool b => b
      | JObj s =>
          match props_lookup s "$ref" with
          | Some ref =>
              match AnyOfField.findSchemaDefinition ref (get root "definitions") with
              | Normal target => validate fuel root target data
              | Throw _ => false
              end
          | None =>
              match get s "type" with
              | JStr t => type_matches t data
              | _ => true
              end
              && match get s "required", data with
                 | JArr keys, JObj d =>
                     forallb (fun key => match key with
                                         | JStr k => props_has d k
                                         | _ => false
                                         end) keys
                 | _, _ => true
                 end
              && match get s "properties", data with
                 | JObj ps, JObj d =>
                     forallb (fun kv => match props_lookup d (fst kv) with
                                        | Some v => validate fuel root (snd kv) v
                                        | None => true
                                        end) ps
                 | _, _ => true
                 end
              && match get s "anyOf" with
                 | JArr l => existsb (fun sub => validate fuel root sub data) l
                 | _ => true
                 end
              && match get s "allOf" with
                 | JArr l => forallb (fun sub => validate fuel root sub data) l
                 | _ => true
                 end
          end
      | _ => false
      end
  end.

Definition isValid (schema data : JSON) : bool :=
  match schema with
  | JObj root => validate 32 root schema data
  | _ => validate 32 [] schema data
  end.

(** Modelled from the spec: the default computer ([computeDefaults] of
    [utils]) is an external collaborator that "fills in declared
    defaults". For a schema with [properties]: the object of the [default]s
    that its properties declare; otherwise the given base. *)
Definition computeDefaults (schema parentDefaults definitions : JSON) : JSON :=
  match schema with
  | JObj s =>
      match get s "properties" with
      | JObj ps =>
          JObj (flat_map
                  (fun kv => match snd kv with
                             | JObj sub =>
                                 match props_lookup sub "default" with
                                 | Some d => [(fst kv, d)]
                                 | None => []
                                 end
                             | _ => []
                             end) ps)
      | _ => parentDefaults
      end
  | _ => parentDefaults
  end.


(** The union of the specification's scenarios:
    [anyOf: [{type: "object", properties: {a: {type: "string"}}},
             {type: "object", properties: {b: {type: "number"}}}]]. *)
Definition branchA : Obj :=
  [("type", JStr "object");
   ("properties", JObj [("a", JObj [("type", JStr "string")])])].
Definition branchB : Obj :=
  [("type", JStr "object");
   ("properties", JObj [("b", JObj [("type", JStr "number")])])].
Definition branchesAB : list Obj := [branchA; branchB].

(** Two object branches that share the property name [id], each with a
    default for it. *)
Definition branchIdA : Obj :=
  [("type", JStr "object");
   ("properties",
    JObj [("id", JObj [("type", JStr "string"); ("default", JStr "x")]);
          ("a", JObj [("type", JStr "string")])])].
Definition branchIdB : Obj :=
  [("type", JStr "object");
   ("properties",
    JObj [("id", JObj [("type", JStr "string"); ("default", JStr "y")]);
          ("b", JObj [("type", JStr "number"); ("default", JNum 1)])])].


(** A branch with [properties] and [anyOf] whose [allOf] is no array. *)
Definition branchMalformed : Obj :=
  [("properties", JObj [("a", JObj [("type", JStr "string")])]);
   ("anyOf", JArr []);
   ("allOf", JStr "x")].

(** A branch that is purely a pointer. *)
Definition refFoo : Obj := [("$ref", JStr "#/definitions/Foo")].

(** A branch with [properties], [required] and a title, and no type. *)
Definition branchPerson : Obj :=
  [("title", JStr "Person");
   ("properties", JObj [("name", JObj [("type", JStr "string")]);
                        ("age", JObj [("type", JStr "number")])]);
   ("required", JArr [JStr "name"])].

(** The same branch with an own property [__proto__], as [JSON.parse]
    makes one. *)
Definition branchProto : Obj :=
  ("__proto__", JObj []) :: branchPerson.

(** A branch with [properties] that has an [anyOf] and an [allOf] of its
    own. *)
Definition branchNested : Obj :=
  [("properties", JObj [("a", JObj [])]);
   ("anyOf", JArr [JObj [("type", JStr "object")]]);
   ("allOf", JArr [JObj [("required", JArr [JStr "a"])]])].

End Sample.


(* ===================================================================== *)
(** ** getMatchingOption over a store of mutable objects *)
(* ===================================================================== *)

Module Store.
Import JS.

Abbreviation loc := nat (only parsing).

(** A value is a primitive or a reference to an object or array of the
    store; two references to one location are the same object. *)
Inductive value : Type :=
| VUndefined
| VNull
| VBool (b : bool)
| VNum (n : Z)
| VStr (s : string)
| VRef (l : loc).

Inductive cell : Type :=
| CObject (fields : list (string * value))
| CArray (items : list value).

(** The store: location [l] is position [l]; allocation appends. *)
Abbreviation store := (list cell).

(** How a computation ends: it returns, it throws, or it is [Stuck] where
    no execution of the program corresponds (a reference to nothing, an
    array where the component is given an object or the reverse, a loop
    that outruns the length its array had at the start). *)
Inductive Outcome (A : Type) : Type :=
| Returned (a : A)
| Thrown (e : Error)
| Stuck.
Arguments Returned {A} a.
Arguments Thrown {A} e.
Arguments Stuck {A}.

Definition M (A : Type) : Type := store -> Outcome A * store.

Definition ret {A : Type} (a : A) : M A := fun st => (Returned a, st).
Definition throw {A : Type} (e : Error) : M A := fun st => (Thrown e, st).
Definition stuck {A : Type} : M A := fun st => (Stuck, st).

Definition bind {A B : Type} (m : M A) (k : A -> M B) : M B :=
  fun st =>
    match m st with
    | (Returned a, st') => k a st'
    | (Thrown e, st') => (Thrown e, st')
    | (Stuck, st') => (Stuck, st')
    end.

Declare Scope store_scope.
Delimit Scope store_scope with store.
Notation "x <- c ;; k" := (bind c (fun x => k))
  (at level 100, c at next level, right associativity) : store_scope.
Notation "c ;;; k" := (bind c (fun _ => k))
  (at level 100, k at level 200, right associativity) : store_scope.
Local Open Scope store_scope.

(** *** The primitive accesses to the store *)

Definition alloc (c : cell) : M value :=
  fun st => (Returned (VRef (List.length st)), (st ++ [c])%list).

Definition load (l : loc) : M cell :=
  fun st =>
    match st !! l with
    | Some c => (Returned c, st)
    | None => (Stuck, st)
    end.

Definition write (l : loc) (c : cell) : M unit :=
  fun st =>
    if (l <? List.length st)%nat then (Returned tt, <[l := c]> st)
    else (Stuck, st).

(** *** The operations of the language that the method uses *)

Definition truthy (v : value) : bool :=
  match v with
  | VUndefined | VNull => false
  | VBool b => b
  | VNum n => negb (n =? 0)
  | VStr s => negb (String.eqb s "")
  | VRef _ => true
  end.

(** [v.k] for a schema keyword [k]. *)
Definition get_member (v : value) (k : string) : M value :=
  match v with
  | VUndefined | VNull => throw TypeError
  | VRef l =>
      c <- load l ;;
      match c with
      | CObject fields =>
          ret (match props_lookup fields k with
               | Some x => x
               | None => VUndefined
               end)
      | CArray _ => ret VUndefined
      end
  | _ => ret VUndefined
  end.

(** [v.k = x] on an object. *)
Definition set_member (v : value) (k : string) (x : value) : M unit :=
  match v with
  | VRef l =>
      c <- load l ;;
      match c with
      | CObject fields => write l (CObject (props_set fields k x))
      | CArray _ => stuck
      end
  | _ => stuck
  end.

(** [delete v.k] on an object. *)
Definition delete_member (v : value) (k : string) : M unit :=
  match v with
  | VRef l =>
      c <- load l ;;
      match c with
      | CObject fields => write l (CObject (props_delete fields k))
      | CArray _ => stuck
      end
  | _ => stuck
  end.

(** The own enumerable properties of a value, as [Object.keys],
    [Object.assign] and the spread syntax see them. *)
Definition own_properties (v : value) : M (list (string * value)) :=
  match v with
  | VRef l =>
      c <- load l ;;
      match c with
      | CObject fields => ret fields
      | CArray items => ret (combine (index_keys (List.length items)) items)
      end
  | VStr s =>
      ret (combine (index_keys (String.length s))
                   (List.map (fun c => VStr (String c EmptyString))
                             (list_ascii_of_string s)))
  | _ => ret []
  end.

Definition Object_keys (v : value) : M (list string) :=
  fields <- own_properties v ;;
  ret (props_keys fields).

(** [Object.assign(target, source)] for an object [target]. *)
Definition Object_assign (target source : value) : M unit :=
  match target with
  | VRef l =>
      sourceFields <- own_properties source ;;
      c <- load l ;;
      match c with
      | CObject fields => write l (CObject (props_assign fields sourceFields))
      | CArray _ => stuck
      end
  | _ => stuck
  end.

(** [v.slice()]: a new array with the same items; a string is its own
    slice; nothing else that is truthy has the method. *)
Definition slice (v : value) : M value :=
  match v with
  | VRef l =>
      c <- load l ;;
      match c with
      | CArray items => alloc (CArray items)
      | CObject _ => throw TypeError
      end
  | VStr s => ret (VStr s)
  | _ => throw TypeError
  end.

(** [v.push(x)]: only an array has the method. *)
Definition push (v : value) (x : value) : M unit :=
  match v with
  | VRef l =>
      c <- load l ;;
      match c with
      | CArray items => write l (CArray (items ++ [x])%list)
      | CObject _ => throw TypeError
      end
  | _ => throw TypeError
  end.

(** [a.length] and [a[i]] for the array of options. *)
Definition array_length (a : value) : M nat :=
  match a with
  | VRef l =>
      c <- load l ;;
      match c with
      | CArray items => ret (List.length items)
      | CObject _ => stuck
      end
  | _ => stuck
  end.

Definition array_item (a : value) (i : nat) : M value :=
  match a with
  | VRef l =>
      c <- load l ;;
      match c with
      | CArray items =>
          ret (match items !! i with Some x => x | None => VUndefined end)
      | CObject _ => stuck
      end
  | _ => stuck
  end.

Fixpoint mapM {A B : Type} (f : A -> M B) (l : list A) : M (list B) :=
  match l with
  | [] => ret []
  | x :: l' =>
      y <- f x ;;
      ys <- mapM f l' ;;
      ret (y :: ys)
  end.

Fixpoint traverse {A B : Type} (f : A -> option B) (l : list A)
  : option (list B) :=
  match l with
  | [] => Some []
  | x :: l' =>
      match f x, traverse f l' with
      | Some y, Some ys => Some (y :: ys)
      | _, _ => None
      end
  end.

(** *** What a value of the store stands for

    The JSON value that is reachable from [v] within [depth] references;
    [None] for a deeper, cyclic or dangling structure. *)
Fixpoint reify (depth : nat) (st : store) (v : value) : option JSON :=
  match v with
  | VUndefined => Some JUndefined
  | VNull => Some JNull
  | VBool b => Some (JBool b)
  | VNum n => Some (JNum n)
  | VStr s => Some (JStr s)
  | VRef l =>
      match depth with
      | O => None
      | S depth =>
          match st !! l with
          | Some (CObject fields) =>
              option_map JObj
                (traverse
                   (fun kv => option_map (pair (fst kv))
                                         (reify depth st (snd kv)))
                   fields)
          | Some (CArray items) =>
              option_map JArr (traverse (reify depth st) items)
          | None => None
          end
      end
  end.

Section WithValidator.

(** The validator reads the schema and the data from the store. *)
Variable isValid : store -> value -> value -> bool.

Definition callIsValid (schema data : value) : M bool :=
  fun st => (Returned (isValid st schema data), st).

(** [{ anyOf: Object.keys(option.properties).map(key => ({ required: [key] })) }] *)
Definition requiresAnyOf (option : value) : M value :=
  properties <- get_member option "properties" ;;
  keys <- Object_keys properties ;;
  items <- mapM (fun key =>
                   required <- alloc (CArray [VStr key]) ;;
                   alloc (CObject [("required", required)])) keys ;;
  anyOf <- alloc (CArray items) ;;
  alloc (CObject [("anyOf", anyOf)]).

(** The branch [if (option.anyOf)]. *)
Definition wrapInAllOf (option requiresAnyOf : value) : M value :=
  fields <- own_properties option ;;
  shallowClone <- alloc (CObject (props_spread fields)) ;;
  allOf <- get_member shallowClone "allOf" ;;
  (if negb (truthy allOf)
   then
     empty <- alloc (CArray []) ;;
     set_member shallowClone "allOf" empty
   else
     copy <- slice allOf ;;
     set_member shallowClone "allOf" copy) ;;;
  allOf <- get_member shallowClone "allOf" ;;
  push allOf requiresAnyOf ;;;
  ret shallowClone.

(** [Object.assign({ definitions }, option, requiresAnyOf)] *)
Definition assignAll (definitions option requiresAnyOf : value) : M value :=
  target <- alloc (CObject [("definitions", definitions)]) ;;
  Object_assign target option ;;;
  Object_assign target requiresAnyOf ;;;
  ret target.

Definition augmentedSchema (definitions option : value) : M value :=
  requiresAnyOf <- requiresAnyOf option ;;
  anyOf <- get_member option "anyOf" ;;
  augmented <-
    (if truthy anyOf then wrapInAllOf option requiresAnyOf
     else assignAll definitions option requiresAnyOf) ;;
  delete_member augmented "required" ;;;
  ret augmented.

(** [{ ...option, definitions }] *)
Definition withDefinitions (definitions option : value) : M value :=
  fields <- own_properties option ;;
  alloc (CObject (props_set (props_spread fields) "definitions" definitions)).

Definition matchSchema (definitions option : value) : M value :=
  properties <- get_member option "properties" ;;
  if truthy properties then augmentedSchema definitions option
  else withDefinitions definitions option.

(** The loop, with [options.length] and [options[i]] read from the store
    at every turn; [turns] bounds the number of iterations. *)
Fixpoint getMatchingOption_from (turns : nat)
    (formData options definitions : value) (i : nat) : M nat :=
  length <- array_length options ;;
  if (i <? length)%nat then
    match turns with
    | O => stuck
    | S turns =>
        option <- array_item options i ;;
        schema <- matchSchema definitions option ;;
        valid <- callIsValid schema formData ;;
        if valid : bool then ret i
        else getMatchingOption_from turns formData options definitions (S i)
    end
  else ret 0%nat.

(** The loop gets as many turns as the array of options is long when the
    method starts: no turn changes that array, so it never needs more. *)
Definition getMatchingOption (formData options definitions : value)
  : M nat :=
  length <- array_length options ;;
  getMatchingOption_from length formData options definitions 0%nat.

End WithValidator.

(** *** Vocabulary of the properties *)

(** [st'] has every cell of the first [n] locations of [st], unchanged. *)
Definition preserves (n : nat) (st st' : store) : Prop :=
  (List.length st <= List.length st')%nat /\
  forall l, (l < n)%nat -> st' !! l = st !! l.

(** [v] is no reference to one of the first [n] locations. *)
Definition fresh (n : nat) (v : value) : Prop :=
  match v with
  | VRef l => (n <= l)%nat
  | _ => True
  end.

(** Run from any store with at least [n] cells, [m] preserves the first
    [n] locations, and what it returns satisfies [Q]. *)
Definition keeps {A : Type} (n : nat) (m : M A) (Q : A -> Prop) : Prop :=
  forall st,
    (n <= List.length st)%nat ->
    preserves n st (m st).2 /\
    forall a, (m st).1 = Returned a -> Q a.

(** What [alloc] and [slice] have in common: the store grows at the end
    and a reference that is returned is new. *)
Definition creates (m : M value) : Prop :=
  forall st,
    exists new,
      (m st).2 = (st ++ new)%list /\
      forall v, (m st).1 = Returned v -> fresh (List.length st) v.

(** Two property tables with the same keys in the same order and related
    values. *)
Definition fields_rel {V W : Type} (R : V -> W -> Prop)
    (f : list (string * V)) (o : list (string * W)) : Prop :=
  Forall2 (fun kv kw => fst kv = fst kw /\ R (snd kv) (snd kw)) f o.

(** The outcome that corresponds to a completion. *)
Definition outcome_of {A : Type} (c : Completion A) : Outcome A :=
  match c with
  | Normal a => Returned a
  | Throw e => Thrown e
  end.

(** The fields of a stored object stand for the fields of a JSON object. *)
Definition reify_fields (depth : nat) (st : store)
    (fields : list (string * value)) : option (list (string * JSON)) :=
  traverse (fun kv => option_map (pair (fst kv)) (reify depth st (snd kv)))
           fields.

(** A validator of stored values from a validator of JSON values: it sees
    what the schema and the data stand for, up to [depth] references, and
    rejects what it cannot read. *)
Definition liftValidator (isValid : JSON -> JSON -> bool) (depth : nat)
  : store -> value -> value -> bool :=
  fun st schema data =>
    match reify depth st schema, reify depth st data with
    | Some s, Some d => isValid s d
    | _, _ => false
    end.

End Store.

(* ===================================================================== *)
(** ** Two stores that hold the same union *)
(* ===================================================================== *)

Module SampleStore.
Import JS Store.
Local Open Scope nat_scope.

(** The data [{b: 2}] at [0], the branches of [Sample.branchesAB] at [3] and
    [6], the array of options at [7], the empty definitions table at [8]. *)
Definition store1 : store :=
  [ CObject [("b", VNum 2)];
    CObject [("type", VStr "string")];
    CObject [("a", VRef 1)];
    CObject [("type", VStr "object"); ("properties", VRef 2)];
    CObject [("type", VStr "number")];
    CObject [("b", VRef 4)];
    CObject [("type", VStr "object"); ("properties", VRef 5)];
    CArray [VRef 3; VRef 6];
    CObject [] ].

(** The same values laid out differently, next to an unrelated array: the
    definitions table at [0], the array of options at [1], the data at
    [9]. *)
Definition store2 : store :=
  [ CObject [];
    CArray [VRef 4; VRef 7];
    CObject [("type", VStr "string")];
    CObject [("a", VRef 2)];
    CObject [("type", VStr "object"); ("properties", VRef 3)];
    CObject [("type", VStr "number")];
    CObject [("b", VRef 5)];
    CObject [("type", VStr "object"); ("properties", VRef 6)];
    CArray [VNum 99];
    CObject [("b", VNum 2)] ].

(** The data [{x: 1}] at [0] and one option at [7] that has [properties],
    [anyOf], [allOf] and [required], each in a cell of its own; the array
    of options at [8], the definitions table at [9]. *)
Definition store3 : store :=
  [ CObject [("x", VNum 1)];
    CObject [("type", VStr "number")];
    CObject [("x", VRef 1)];
    CObject [];
    CArray [VRef 3];
    CArray [VRef 3];
    CArray [VStr "x"];
    CObject [("properties", VRef 2); ("anyOf", VRef 4); ("allOf", VRef 5);
             ("required", VRef 6)];
    CArray [VRef 7];
    CObject [] ].

End SampleStore.

(* ===================================================================== *)
(** ** What render computes *)
(* ===================================================================== *)

Module Render.
Import JS AnyOfField.

(** [option.title || `Option ${index + 1}`] *)
Definition optionLabel (option : Obj) (index : nat) : JSON :=
  if truthy (get option "title") then get option "title"
  else JStr ("Option " ++ number_to_string (Z.of_nat index + 1)).

(** [options.map((option, index) => ({ label: ..., value: index }))] *)
Definition enumOptions (options : list Obj) : list Obj :=
  imap (fun index option =>
          [("label", optionLabel option index);
           ("value", JNum (Z.of_nat index))])
       options.

(** [option.type ? option : Object.assign({}, option, { type: baseType })] *)
Definition optionSchema (option : Obj) (baseType : JSON) : Obj :=
  if truthy (get option "type") then option
  else props_assign (props_assign [] option) [("type", baseType)].

(** What [render] hands on: the [value] and the [enumOptions] of the select
    widget, and the [schema] of the [SchemaField], which is rendered only
    when [options[selectedOption] || null] is not [null]. The widget itself
    and the ui options come from [getWidget] and [getUiOptions] of [utils]
    and are left out. *)
Record Rendered : Type := mkRendered {
  widgetValue : Z;
  widgetEnumOptions : list Obj;
  fieldSchema : option Obj;
}.

Definition render (this : Component) (baseType : JSON) : Rendered :=
  let option := array_get (options (props this)) (selectedOption this) in
  mkRendered (selectedOption this)
             (enumOptions (options (props this)))
             (option_map (fun option => optionSchema option baseType) option).

(** *** Vocabulary of the properties *)

(** An option on which the augmentation throws: it has [properties] and
    [anyOf], and a truthy [allOf] that is no array. *)
Definition augmentationThrows (option : Obj) : bool :=
  truthy (get option "properties") && truthy (get option "anyOf")
  && negb (allOfWellFormed option).

(** The items of the [allOf] of an option, none when it has no array
    there. *)
Definition allOfItems (option : Obj) : list JSON :=
  match get option "allOf" with
  | JArr l => l
  | _ => []
  end.

(** An option whose schema for the validator is built with
    [Object.assign]: it has [properties] and no [anyOf]. *)
Definition builtByAssign (option : Obj) : bool :=
  truthy (get option "properties") && negb (truthy (get option "anyOf")).

(** The keywords that the augmentation may write or delete. *)
Definition augmentationKeywords : list string :=
  ["anyOf"; "allOf"; "required"; "definitions"].

(** What a call emits, or the error it throws. *)
Definition emission {A : Type} (c : Completion (JSON * A))
  : Completion JSON :=
  match c with
  | Normal (emitted, _) => Normal emitted
  | Throw e => Throw e
  end.

End Render.

(* ===================================================================== *)
(** ** Facts about property tables *)
(* ===================================================================== *)

Module PropsFacts.
Import JS.

Section Lookup.
Context {V : Type}.
Implicit Types (o t s : list (string * V)) (k : string) (v : V).

Lemma props_has_lookup o k :
  props_has o k = true <-> exists v, props_lookup o k = Some v.
Proof.
  unfold props_has. destruct (props_lookup o k); split; eauto;
    try discriminate.
  intros [? ?]; discriminate.
Qed.

Lemma props_has_false o k :
  props_has o k = false <-> props_lookup o k = None.
Proof.
  unfold props_has. destruct (props_lookup o k); split; congruence.
Qed.

Lemma props_lookup_In o k v : props_lookup o k = Some v -> In k (props_keys o).
Proof.
  induction o as [|[k' v'] o IH]; simpl; [discriminate|].
  destruct (String.eqb_spec k' k); auto.
Qed.

Lemma props_lookup_replace o k v k' :
  props_has o k = true ->
  props_lookup (props_replace o k v) k' =
  if String.eqb k k' then Some v else props_lookup o k'.
Proof.
  unfold props_has.
  induction o as [|[k0 v0] o IH]; simpl; [discriminate|].
  destruct (String.eqb_spec k0 k) as [->|Hne]; simpl.
  - intros _. destruct (String.eqb_spec k k'); reflexivity.
  - intros H. rewrite (IH H).
    destruct (String.eqb_spec k0 k'), (String.eqb_spec k k'); congruence.
Qed.

Lemma props_lookup_insert_index n o k v k' :
  props_has o k = false ->
  props_lookup (props_insert_index n k v o) k' =
  if String.eqb k k' then Some v else props_lookup o k'.
Proof.
  unfold props_has.
  induction o as [|[k0 v0] o IH]; simpl; [reflexivity|].
  destruct (String.eqb_spec k0 k) as [->|Hne]; [discriminate|].
  intros H.
  destruct (index_of_key k0) as [n'|]; [destruct (n' <? n)%N|]; simpl;
    try reflexivity.
  rewrite (IH H).
  destruct (String.eqb_spec k0 k'), (String.eqb_spec k k'); congruence.
Qed.

Lemma props_lookup_app o t k :
  props_lookup (o ++ t) k =
  match props_lookup o k with Some v => Some v | None => props_lookup t k end.
Proof.
  induction o as [|[k0 v0] o IH]; simpl; [reflexivity|].
  destruct (String.eqb k0 k); auto.
Qed.

(** Reading after [o[k] = v]. *)
Lemma props_lookup_set o k v k' :
  props_lookup (props_set o k v) k' =
  if String.eqb k k' then Some v else props_lookup o k'.
Proof.
  unfold props_set. destruct (props_has o k) eqn:Hhas.
  - by apply props_lookup_replace.
  - destruct (index_of_key k).
    + by apply props_lookup_insert_index.
    + rewrite props_lookup_app. simpl.
      destruct (String.eqb_spec k k') as [->|Hne].
      * apply props_has_false in Hhas. by rewrite Hhas.
      * by destruct (props_lookup o k').
Qed.

Lemma props_lookup_delete o k k' :
  props_lookup (props_delete o k) k' =
  if String.eqb k k' then None else props_lookup o k'.
Proof.
  unfold props_delete.
  induction o as [|[k0 v0] o IH]; simpl.
  - by destruct (String.eqb k k').
  - destruct (String.eqb_spec k0 k) as [->|Hne]; simpl.
    + rewrite IH. by destruct (String.eqb k k').
    + rewrite IH.
      destruct (String.eqb_spec k0 k'), (String.eqb_spec k k'); congruence.
Qed.

Lemma props_lookup_fold_set s ks t k :
  props_lookup
    (fold_left (fun t k => match props_lookup s k with
                           | Some v => props_set t k v
                           | None => t
                           end) ks t) k =
  match props_lookup s k with
  | Some v => if existsb (String.eqb k) ks then Some v else props_lookup t k
  | None => props_lookup t k
  end.
Proof.
  revert t. induction ks as [|k0 ks IH]; intros t; simpl.
  - by destruct (props_lookup s k).
  - rewrite IH. destruct (props_lookup s k) as [v|] eqn:Hk.
    + destruct (String.eqb_spec k k0) as [<-|Hne]; simpl.
      * rewrite Hk, props_lookup_set, String.eqb_refl.
        by destruct (existsb _ ks).
      * destruct (existsb _ ks); [done|].
        destruct (props_lookup s k0); [|done].
        rewrite props_lookup_set.
        destruct (String.eqb_spec k0 k); congruence.
    + destruct (props_lookup s k0) eqn:Hk0; [|done].
      rewrite props_lookup_set.
      destruct (String.eqb_spec k0 k); congruence.
Qed.

(** Reading after the own properties of [s] have been defined on [t]. *)
Lemma props_lookup_define t s k :
  props_lookup (props_define t s) k =
  match props_lookup s k with Some v => Some v | None => props_lookup t k end.
Proof.
  unfold props_define. rewrite props_lookup_fold_set.
  destruct (props_lookup s k) as [v|] eqn:Hk; [|done].
  apply props_lookup_In in Hk.
  assert (existsb (String.eqb k) (props_keys s) = true) as ->; [|done].
  apply existsb_exists. exists k. split; [done|apply String.eqb_refl].
Qed.

(** Reading after [Object.assign(t, s)]: [__proto__] is not assigned. *)
Lemma props_lookup_assign t s k :
  props_lookup (props_assign t s) k =
  if String.eqb "__proto__" k then props_lookup t k
  else match props_lookup s k with
       | Some v => Some v
       | None => props_lookup t k
       end.
Proof.
  unfold props_assign. rewrite props_lookup_define, props_lookup_delete.
  by destruct (String.eqb "__proto__" k).
Qed.

(** A shallow clone reads like the original. *)
Lemma props_lookup_spread s k :
  props_lookup (props_spread s) k = props_lookup s k.
Proof.
  unfold props_spread. rewrite props_lookup_define.
  by destruct (props_lookup s k).
Qed.
End Lookup.

Lemma get_spread (o : Obj) k : get (props_spread o) k = get o k.
Proof. unfold get. by rewrite props_lookup_spread. Qed.

Lemma get_set (o : Obj) k v k' :
  get (props_set o k v) k' = if String.eqb k k' then v else get o k'.
Proof. unfold get. rewrite props_lookup_set. by destruct (String.eqb k k'). Qed.

End PropsFacts.

(* ===================================================================== *)
(** ** The store: what getMatchingOption writes *)
(* ===================================================================== *)

Module StoreFacts.
Import JS Store.
Local Open Scope nat_scope.
Local Open Scope list_scope.
Local Open Scope store_scope.

(** *** Preservation *)

Lemma preserves_refl n st : preserves n st st.
Proof. by split. Qed.

Lemma preserves_trans n st1 st2 st3 :
  preserves n st1 st2 -> preserves n st2 st3 -> preserves n st1 st3.
Proof.
  intros [Hlen1 H1] [Hlen2 H2]. split; [lia|].
  intros l Hl. by rewrite H2, H1.
Qed.

Lemma preserves_app n (st new : store) :
  n <= List.length st -> preserves n st (st ++ new).
Proof.
  intros Hn. split; [rewrite length_app; lia|].
  intros l Hl. apply lookup_app_l. lia.
Qed.

Lemma preserves_insert n (st : store) l c :
  n <= l -> preserves n st (<[l := c]> st).
Proof.
  intros Hn. split; [by rewrite length_insert|].
  intros l' Hl'. apply list_lookup_insert_ne. lia.
Qed.

Lemma preserves_length n st st' :
  preserves n st st' -> n <= List.length st -> n <= List.length st'.
Proof. intros [Hlen _] Hn. lia. Qed.

(** Preserving every cell there was means growing at the end. *)
Lemma preserves_all_app (st st' : store) :
  preserves (List.length st) st st' -> exists new, st' = (st ++ new)%list.
Proof.
  intros [Hlen Hl]. exists (drop (List.length st) st').
  rewrite <- (take_drop (List.length st) st') at 1. f_equal.
  apply list_eq. intros l. destruct (Nat.lt_ge_cases l (List.length st)) as [Hlt|Hge].
  - by rewrite lookup_take_lt, Hl.
  - rewrite lookup_take_ge by lia. symmetry. by apply lookup_ge_None.
Qed.

(** *** Rules for [keeps] *)

Lemma keeps_ret {A : Type} n (a : A) (Q : A -> Prop) :
  Q a -> keeps n (ret a) Q.
Proof.
  intros HQ st Hn. split; [apply preserves_refl|].
  by intros a' [= <-].
Qed.

Lemma keeps_throw {A : Type} n e (Q : A -> Prop) : keeps n (throw e) Q.
Proof. intros st Hn. split; [apply preserves_refl|discriminate]. Qed.

Lemma keeps_stuck {A : Type} n (Q : A -> Prop) : keeps n stuck Q.
Proof. intros st Hn. split; [apply preserves_refl|discriminate]. Qed.

Lemma keeps_bind {A B : Type} n (m : M A) (k : A -> M B)
    (Q : A -> Prop) (R : B -> Prop) :
  keeps n m Q ->
  (forall a, Q a -> keeps n (k a) R) ->
  keeps n (bind m k) R.
Proof.
  intros Hm Hk st Hn. unfold bind.
  destruct (Hm st Hn) as [Hpres HQ].
  destruct (m st) as [[a|e|] st'] eqn:Hrun; simpl in *.
  - destruct (Hk a (HQ a eq_refl) st' (preserves_length _ _ _ Hpres Hn))
      as [Hpres' HR].
    split; [by eapply preserves_trans|done].
  - split; [done|discriminate].
  - split; [done|discriminate].
Qed.

Lemma keeps_load n l : keeps n (load l) (fun _ => True).
Proof.
  intros st Hn. unfold load. destruct (st !! l); simpl;
    (split; [apply preserves_refl|done]).
Qed.

Lemma keeps_alloc n c : keeps n (alloc c) (fresh n).
Proof.
  intros st Hn. unfold alloc. simpl. split; [by apply preserves_app|].
  by intros a [= <-].
Qed.

Lemma keeps_write n l c : n <= l -> keeps n (write l c) (fun _ => True).
Proof.
  intros Hl st Hn. unfold write.
  destruct (l <? List.length st); simpl;
    (split; [by (apply preserves_insert || apply preserves_refl)|done]).
Qed.

Lemma keeps_callIsValid n isValid schema data :
  keeps n (callIsValid isValid schema data) (fun _ => True).
Proof. intros st Hn. split; [apply preserves_refl|done]. Qed.

Ltac keeps_step :=
  first
    [ apply keeps_ret; try exact I
    | apply keeps_throw
    | apply keeps_stuck
    | eapply keeps_bind; [apply keeps_load|intros [?|?] _]
    | apply keeps_write; assumption
    | apply keeps_alloc ].

Lemma keeps_get_member n v k : keeps n (get_member v k) (fun _ => True).
Proof. destruct v; simpl; repeat keeps_step. Qed.

Lemma keeps_own_properties n v : keeps n (own_properties v) (fun _ => True).
Proof. destruct v; simpl; repeat keeps_step. Qed.

Lemma keeps_Object_keys n v : keeps n (Object_keys v) (fun _ => True).
Proof.
  unfold Object_keys. eapply keeps_bind; [apply keeps_own_properties|].
  intros fields _. by apply keeps_ret.
Qed.

Lemma keeps_array_length n a : keeps n (array_length a) (fun _ => True).
Proof. destruct a; simpl; repeat keeps_step. Qed.

Lemma keeps_array_item n a i : keeps n (array_item a i) (fun _ => True).
Proof. destruct a; simpl; repeat keeps_step. Qed.

(** Writing to a new object or array. *)
Lemma keeps_delete_member n v k :
  fresh n v -> keeps n (delete_member v k) (fun _ => True).
Proof. destruct v; simpl; intros Hv; repeat keeps_step. Qed.

Lemma keeps_push n v x : fresh n v -> keeps n (push v x) (fun _ => True).
Proof. destruct v; simpl; intros Hv; repeat keeps_step. Qed.

Lemma keeps_Object_assign n target source :
  fresh n target -> keeps n (Object_assign target source) (fun _ => True).
Proof.
  destruct target; simpl; intros Hv; try keeps_step.
  eapply keeps_bind; [apply keeps_own_properties|]. intros fields _.
  repeat keeps_step.
Qed.

Lemma keeps_mapM {A B : Type} n (f : A -> M B) (l : list A) (Q : B -> Prop) :
  (forall x, keeps n (f x) Q) -> keeps n (mapM f l) (Forall Q).
Proof.
  intros Hf. induction l as [|x l IH]; simpl.
  - by apply keeps_ret.
  - eapply keeps_bind; [apply Hf|]. intros y Hy.
    eapply keeps_bind; [apply IH|]. intros ys Hys.
    apply keeps_ret. by constructor.
Qed.

(** *** Runs on a store whose relevant cells are known *)

Lemma bind_returned {A B : Type} (m : M A) (k : A -> M B) st a st' :
  m st = (Returned a, st') -> bind m k st = k a st'.
Proof. intros H. unfold bind. by rewrite H. Qed.

Lemma bind_thrown {A B : Type} (m : M A) (k : A -> M B) st e st' :
  m st = (Thrown e, st') -> bind m k st = (Thrown e, st').
Proof. intros H. unfold bind. by rewrite H. Qed.

Lemma bind_stuck {A B : Type} (m : M A) (k : A -> M B) st st' :
  m st = (Stuck, st') -> bind m k st = (Stuck, st').
Proof. intros H. unfold bind. by rewrite H. Qed.

Lemma alloc_run c (st : store) :
  alloc c st = (Returned (VRef (List.length st)), st ++ [c]).
Proof. reflexivity. Qed.

Lemma load_run l c (st : store) :
  st !! l = Some c -> load l st = (Returned c, st).
Proof. intros H. unfold load. by rewrite H. Qed.

Lemma write_run l c c' (st : store) :
  st !! l = Some c' -> write l c st = (Returned tt, <[l := c]> st).
Proof.
  intros H%lookup_lt_Some. unfold write.
  by destruct (Nat.ltb_spec l (List.length st)); [|lia].
Qed.

Lemma get_member_run l fields k (st : store) :
  st !! l = Some (CObject fields) ->
  get_member (VRef l) k st =
  (Returned (match props_lookup fields k with
             | Some x => x
             | None => VUndefined
             end), st).
Proof. intros H. simpl. by rewrite (bind_returned _ _ _ _ _ (load_run _ _ _ H)). Qed.

Lemma set_member_run l fields k x (st : store) :
  st !! l = Some (CObject fields) ->
  set_member (VRef l) k x st =
  (Returned tt, <[l := CObject (props_set fields k x)]> st).
Proof.
  intros H. simpl. rewrite (bind_returned _ _ _ _ _ (load_run _ _ _ H)).
  by eapply write_run.
Qed.

Lemma delete_member_run l fields k (st : store) :
  st !! l = Some (CObject fields) ->
  delete_member (VRef l) k st =
  (Returned tt, <[l := CObject (props_delete fields k)]> st).
Proof.
  intros H. simpl. rewrite (bind_returned _ _ _ _ _ (load_run _ _ _ H)).
  by eapply write_run.
Qed.

Lemma push_run l items x (st : store) :
  st !! l = Some (CArray items) ->
  push (VRef l) x st = (Returned tt, <[l := CArray (items ++ [x])]> st).
Proof.
  intros H. simpl. rewrite (bind_returned _ _ _ _ _ (load_run _ _ _ H)).
  by eapply write_run.
Qed.

Lemma own_properties_run l fields (st : store) :
  st !! l = Some (CObject fields) ->
  own_properties (VRef l) st = (Returned fields, st).
Proof. intros H. simpl. by rewrite (bind_returned _ _ _ _ _ (load_run _ _ _ H)). Qed.

Lemma Object_assign_run l fields source sourceFields (st : store) :
  st !! l = Some (CObject fields) ->
  own_properties source st = (Returned sourceFields, st) ->
  Object_assign (VRef l) source st =
  (Returned tt, <[l := CObject (props_assign fields sourceFields)]> st).
Proof.
  intros H Hsource. simpl. rewrite (bind_returned _ _ _ _ _ Hsource).
  rewrite (bind_returned _ _ _ _ _ (load_run _ _ _ H)). by eapply write_run.
Qed.

(** *** The branch [if (option.anyOf)] writes to what it created *)

Lemma creates_alloc c : creates (alloc c).
Proof.
  intros st. exists [c]. split; [done|]. intros v [= <-]. simpl. lia.
Qed.

Lemma creates_slice v : creates (slice v).
Proof.
  intros st. destruct v as [| | | | |l]; simpl;
    try (exists []; rewrite app_nil_r; split; [done|]; by intros ? [= <-]).
  unfold bind, load. destruct (st !! l) as [[fields|items]|]; simpl.
  - exists []. by rewrite app_nil_r.
  - exists [CArray items]. split; [done|]. intros v [= <-]. simpl. lia.
  - exists []. by rewrite app_nil_r.
Qed.

(** Setting [allOf] of the clone at [l] to what [m] creates. *)
Lemma set_created_allOf n (m : M value) l clone (st : store) :
  creates m ->
  n <= l ->
  st !! l = Some (CObject clone) ->
  let run := bind m (fun v => set_member (VRef l) "allOf" v) st in
  preserves n st run.2 /\
  (run.1 = Returned tt ->
   exists y, fresh n y /\
             run.2 !! l = Some (CObject (props_set clone "allOf" y))).
Proof.
  intros Hm Hn Hl. cbv zeta.
  assert (n <= List.length st) as Hlen by (apply lookup_lt_Some in Hl; lia).
  destruct (Hm st) as (new & Hst & Hfresh).
  destruct (m st) as [[v|e|] st'] eqn:Hrun; cbn [fst snd] in *; subst st'.
  - assert ((st ++ new) !! l = Some (CObject clone)) as Hl'
        by (by apply lookup_app_l_Some).
    rewrite (bind_returned _ _ _ _ _ Hrun), (set_member_run _ _ _ _ _ Hl').
    cbn [fst snd]. split.
    + eapply preserves_trans; [by apply preserves_app|by apply preserves_insert].
    + intros _. exists v. split.
      * specialize (Hfresh v eq_refl). destruct v; simpl in *; try done. lia.
      * apply list_lookup_insert_eq. by eapply lookup_lt_Some.
  - rewrite (bind_thrown _ _ _ _ _ Hrun).
    split; [by apply preserves_app|discriminate].
  - rewrite (bind_stuck _ _ _ _ Hrun).
    split; [by apply preserves_app|discriminate].
Qed.

Lemma keeps_wrapInAllOf n option requiresAnyOf :
  keeps n (wrapInAllOf option requiresAnyOf) (fresh n).
Proof.
  unfold wrapInAllOf.
  eapply keeps_bind; [apply keeps_own_properties|]. intros fields _.
  intros st Hn. rewrite (bind_returned _ _ _ _ _ (alloc_run _ st)).
  set (l := List.length st). set (clone := props_spread fields).
  set (st1 := st ++ [CObject clone]).
  assert (st1 !! l = Some (CObject clone)) as Hl by (by apply list_lookup_middle).
  assert (preserves n st st1) as Hpres1 by (by apply preserves_app).
  rewrite (bind_returned _ _ _ _ _ (get_member_run _ _ _ _ Hl)).
  set (allOf := match props_lookup clone "allOf" with
                | Some x => x
                | None => VUndefined
                end).
  assert (exists m, creates m /\
            (if negb (truthy allOf)
             then empty <- alloc (CArray []) ;;
                  set_member (VRef l) "allOf" empty
             else copy <- slice allOf ;;
                  set_member (VRef l) "allOf" copy)
            = bind m (fun v => set_member (VRef l) "allOf" v))
    as (m & Hm & ->).
  { destruct (negb (truthy allOf)); eexists; (split; [|reflexivity]);
      [apply creates_alloc|apply creates_slice]. }
  pose proof (set_created_allOf n m l clone st1 Hm Hn Hl) as Hset.
  cbv zeta in Hset.
  remember (bind m (fun v => set_member (VRef l) "allOf" v) st1) as r eqn:Hrun.
  symmetry in Hrun. destruct r as [[[]|e|] st2]; cbn [fst snd] in Hset;
    destruct Hset as [Hpres2 Hset].
  - rewrite (bind_returned _ _ _ _ _ Hrun).
    destruct (Hset eq_refl) as (y & Hy & Hl2).
    rewrite (bind_returned _ _ _ _ _ (get_member_run _ _ _ _ Hl2)).
    rewrite PropsFacts.props_lookup_set, String.eqb_refl.
    assert (n <= List.length st2) as Hn2.
    { eapply preserves_length; [exact Hpres2|]. by eapply preserves_length. }
    destruct (keeps_push n y requiresAnyOf Hy st2 Hn2) as [Hpres3 _].
    remember (push y requiresAnyOf st2) as r eqn:Hpush. symmetry in Hpush.
    destruct r as [[[]|e|] st3]; cbn [fst snd] in Hpres3.
    + rewrite (bind_returned _ _ _ _ _ Hpush). cbn [ret fst snd]. split.
      * eapply preserves_trans; [exact Hpres1|]. by eapply preserves_trans.
      * intros a [= <-]. exact Hn.
    + rewrite (bind_thrown _ _ _ _ _ Hpush). cbn [fst snd]. split.
      * eapply preserves_trans; [exact Hpres1|]. by eapply preserves_trans.
      * discriminate.
    + rewrite (bind_stuck _ _ _ _ Hpush). cbn [fst snd]. split.
      * eapply preserves_trans; [exact Hpres1|]. by eapply preserves_trans.
      * discriminate.
  - rewrite (bind_thrown _ _ _ _ _ Hrun). cbn [fst snd].
    split; [by eapply preserves_trans|discriminate].
  - rewrite (bind_stuck _ _ _ _ Hrun). cbn [fst snd].
    split; [by eapply preserves_trans|discriminate].
Qed.

Lemma keeps_requiresAnyOf n option : keeps n (requiresAnyOf option) (fresh n).
Proof.
  unfold requiresAnyOf.
  eapply keeps_bind; [apply keeps_get_member|]. intros properties _.
  eapply keeps_bind; [apply keeps_Object_keys|]. intros keys _.
  eapply keeps_bind.
  { apply (keeps_mapM n _ keys (fresh n)). intros key.
    eapply keeps_bind; [apply keeps_alloc|]. intros required _.
    apply keeps_alloc. }
  intros items _.
  eapply keeps_bind; [apply keeps_alloc|]. intros anyOf _.
  apply keeps_alloc.
Qed.

Lemma keeps_assignAll n definitions option requiresAnyOf :
  keeps n (assignAll definitions option requiresAnyOf) (fresh n).
Proof.
  unfold assignAll.
  eapply keeps_bind; [apply keeps_alloc|]. intros target Htarget.
  eapply keeps_bind; [by apply keeps_Object_assign|]. intros _ _.
  eapply keeps_bind; [by apply keeps_Object_assign|]. intros _ _.
  by apply keeps_ret.
Qed.

Lemma keeps_matchSchema n definitions option :
  keeps n (matchSchema definitions option) (fresh n).
Proof.
  unfold matchSchema.
  eapply keeps_bind; [apply keeps_get_member|]. intros properties _.
  destruct (truthy properties).
  - unfold augmentedSchema.
    eapply keeps_bind; [apply keeps_requiresAnyOf|]. intros r _.
    eapply keeps_bind; [apply keeps_get_member|]. intros anyOf _.
    eapply keeps_bind.
    { destruct (truthy anyOf);
        [apply keeps_wrapInAllOf|apply keeps_assignAll]. }
    intros augmented Haugmented.
    eapply keeps_bind; [by apply keeps_delete_member|]. intros _ _.
    by apply keeps_ret.
  - unfold withDefinitions.
    eapply keeps_bind; [apply keeps_own_properties|]. intros fields _.
    apply keeps_alloc.
Qed.

Lemma keeps_getMatchingOption_from n isValid turns formData options definitions i :
  keeps n (getMatchingOption_from isValid turns formData options definitions i)
        (fun _ => True).
Proof.
  revert i. induction turns as [|turns IH]; intros i; simpl.
  - eapply keeps_bind; [apply keeps_array_length|]. intros len _.
    destruct (i <? len); [apply keeps_stuck|by apply keeps_ret].
  - eapply keeps_bind; [apply keeps_array_length|]. intros len _.
    destruct (i <? len); [|by apply keeps_ret].
    eapply keeps_bind; [apply keeps_array_item|]. intros option _.
    eapply keeps_bind; [apply keeps_matchSchema|]. intros schema _.
    eapply keeps_bind; [apply keeps_callIsValid|]. intros [|] _.
    + by apply keeps_ret.
    + apply IH.
Qed.

Lemma keeps_getMatchingOption n isValid formData options definitions :
  keeps n (getMatchingOption isValid formData options definitions)
        (fun _ => True).
Proof.
  unfold getMatchingOption.
  eapply keeps_bind; [apply keeps_array_length|]. intros len _.
  apply keeps_getMatchingOption_from.
Qed.

End StoreFacts.

(* ===================================================================== *)
(** ** The store: what a stored value stands for *)
(* ===================================================================== *)

Module ReifyFacts.
Import JS Store StoreFacts.
Local Open Scope nat_scope.
Local Open Scope list_scope.

Lemma traverse_Some {A B : Type} (f : A -> option B) l ys :
  traverse f l = Some ys <-> Forall2 (fun x y => f x = Some y) l ys.
Proof.
  revert ys. induction l as [|x l IH]; intros ys; simpl.
  - split; [intros [= <-]; constructor|by inversion 1].
  - destruct (f x) as [y|] eqn:Hx.
    + destruct (traverse f l) as [ys'|] eqn:Hl.
      * split.
        -- intros [= <-]. constructor; [done|by apply IH].
        -- inversion 1 as [|? y' ? ys'' Hy Hys]; subst.
           apply IH in Hys. congruence.
      * split; [discriminate|].
        inversion 1 as [|? y' ? ys'' Hy Hys]; subst.
        apply IH in Hys. discriminate.
    + split; [discriminate|]. inversion 1; congruence.
Qed.

Lemma reify_fields_rel depth st fields o :
  reify_fields depth st fields = Some o <->
  fields_rel (fun v j => reify depth st v = Some j) fields o.
Proof.
  unfold reify_fields, fields_rel. rewrite traverse_Some.
  split; intros H; eapply Forall2_impl; try exact H;
    intros [k v] [k' j]; simpl.
  - destruct (reify depth st v); simpl; [|discriminate].
    by intros [= -> ->].
  - intros [-> ->]. reflexivity.
Qed.

Lemma reify_object depth (st : store) l fields o :
  st !! l = Some (CObject fields) ->
  reify_fields depth st fields = Some o ->
  reify (S depth) st (VRef l) = Some (JObj o).
Proof. intros Hl Hf. simpl. rewrite Hl. fold (reify_fields depth st fields). by rewrite Hf. Qed.

Lemma reify_array depth (st : store) l items js :
  st !! l = Some (CArray items) ->
  traverse (reify depth st) items = Some js ->
  reify (S depth) st (VRef l) = Some (JArr js).
Proof. intros Hl Hf. simpl. by rewrite Hl, Hf. Qed.

Lemma reify_object_inv depth (st : store) v o :
  reify depth st v = Some (JObj o) ->
  exists l fields depth',
    v = VRef l /\ depth = S depth' /\
    st !! l = Some (CObject fields) /\
    reify_fields depth' st fields = Some o.
Proof.
  destruct depth as [|depth']; destruct v as [| | | | |l]; simpl;
    try discriminate.
  destruct (st !! l) as [[fields|items]|] eqn:Hl; [| |discriminate].
  - fold (reify_fields depth' st fields).
    destruct (reify_fields depth' st fields) as [o'|] eqn:Hf; simpl;
      [|discriminate].
    intros [= <-]. by exists l, fields, depth'.
  - destruct (traverse _ items); discriminate.
Qed.

Lemma reify_array_inv depth (st : store) v js :
  reify depth st v = Some (JArr js) ->
  exists l items depth',
    v = VRef l /\ depth = S depth' /\
    st !! l = Some (CArray items) /\
    traverse (reify depth' st) items = Some js.
Proof.
  destruct depth as [|depth']; destruct v as [| | | | |l]; simpl;
    try discriminate.
  destruct (st !! l) as [[fields|items]|] eqn:Hl; [| |discriminate].
  - destruct (traverse _ fields); discriminate.
  - destruct (traverse _ items) as [js'|] eqn:Hf; simpl; [|discriminate].
    intros [= <-]. by exists l, items, depth'.
Qed.

(** What a value stands for does not change when the depth grows or when
    the cells that were there are preserved. *)
Lemma reify_stable depth depth' (st st' : store) v j :
  depth <= depth' ->
  preserves (List.length st) st st' ->
  reify depth st v = Some j ->
  reify depth' st' v = Some j.
Proof.
  intros Hd [_ Hpres]. revert depth' Hd v j.
  induction depth as [|depth IH]; intros depth' Hd v j.
  - destruct v; simpl; try discriminate; by destruct depth'.
  - destruct depth' as [|depth']; [lia|].
    destruct v as [| | | | |l]; simpl; try done.
    destruct (st !! l) as [c|] eqn:Hl; [|discriminate].
    rewrite (Hpres l (lookup_lt_Some _ _ _ Hl)), Hl.
    assert (forall v j, reify depth st v = Some j ->
                        reify depth' st' v = Some j) as IH'
      by (intros; apply IH; [lia|done]).
    destruct c as [fields|items].
    + destruct (traverse _ fields) as [o|] eqn:Hf; simpl; [|discriminate].
      intros [= <-].
      assert (traverse
                (fun kv => option_map (pair kv.1) (reify depth' st' kv.2))
                fields = Some o) as ->; [|done].
      apply traverse_Some. apply traverse_Some in Hf.
      eapply Forall2_impl; [|exact Hf]. intros [k v] [k' j'] Hkv. simpl in *.
      destruct (reify depth st v) as [jv|] eqn:Hv; [|discriminate].
      by rewrite (IH' _ _ Hv).
    + destruct (traverse _ items) as [js|] eqn:Hf; simpl; [|discriminate].
      intros [= <-].
      assert (traverse (reify depth' st') items = Some js) as ->; [|done].
      apply traverse_Some. apply traverse_Some in Hf.
      eapply Forall2_impl; [|exact Hf]. auto.
Qed.

Lemma reify_fields_stable depth depth' (st st' : store) fields o :
  depth <= depth' ->
  preserves (List.length st) st st' ->
  reify_fields depth st fields = Some o ->
  reify_fields depth' st' fields = Some o.
Proof.
  intros Hd Hpres. rewrite !reify_fields_rel. intros H.
  eapply Forall2_impl; [|exact H]. intros [k v] [k' j] [? ?]. split; [done|].
  by eapply reify_stable.
Qed.

Lemma reify_items_stable depth depth' (st st' : store) items js :
  depth <= depth' ->
  preserves (List.length st) st st' ->
  traverse (reify depth st) items = Some js ->
  traverse (reify depth' st') items = Some js.
Proof.
  intros Hd Hpres. rewrite !traverse_Some. intros H.
  eapply Forall2_impl; [|exact H]. intros v j ?. by eapply reify_stable.
Qed.

(** The shape of a stored value from the shape of what it stands for. *)
Lemma reify_inv depth (st : store) v j :
  reify depth st v = Some j ->
  match j with
  | JUndefined => v = VUndefined
  | JNull => v = VNull
  | JBool b => v = VBool b
  | JNum n => v = VNum n
  | JStr s => v = VStr s
  | JArr js =>
      exists l items depth',
        v = VRef l /\ depth = S depth' /\
        st !! l = Some (CArray items) /\
        traverse (reify depth' st) items = Some js
  | JObj o =>
      exists l fields depth',
        v = VRef l /\ depth = S depth' /\
        st !! l = Some (CObject fields) /\
        reify_fields depth' st fields = Some o
  end.
Proof.
  intros H. destruct j; try (by apply reify_array_inv);
    try (by apply reify_object_inv);
    destruct depth; destruct v as [| | | | |l]; simpl in H;
    try discriminate; try congruence;
    destruct (st !! l) as [[fields|items]|]; try discriminate;
    destruct (traverse _ _); discriminate.
Qed.

Lemma truthy_reify depth st v j :
  reify depth st v = Some j -> Store.truthy v = JS.truthy j.
Proof.
  destruct depth; destruct v as [| | | | |l]; simpl;
    try (by intros [= <-]); try discriminate.
  destruct (st !! l) as [[fields|items]|]; [| |discriminate].
  - destruct (traverse _ fields); simpl; [|discriminate]. by intros [= <-].
  - destruct (traverse _ items); simpl; [|discriminate]. by intros [= <-].
Qed.

(** *** The operations on property tables respect related values *)

Section Related.
Context {V W : Type} (R : V -> W -> Prop).
Implicit Types (f t : list (string * V)) (o u : list (string * W)).

Lemma rel_keys f o : fields_rel R f o -> props_keys f = props_keys o.
Proof.
  induction 1 as [|[k v] [k' w] f o [Hk _] _ IH]; simpl in *; congruence.
Qed.

Lemma rel_lookup f o k :
  fields_rel R f o ->
  match props_lookup f k, props_lookup o k with
  | Some v, Some w => R v w
  | None, None => True
  | _, _ => False
  end.
Proof.
  induction 1 as [|[k0 v] [k0' w] f o [Hk Hv] _ IH]; simpl in *; [done|].
  subst k0'. by destruct (String.eqb k0 k).
Qed.

Lemma rel_has f o k : fields_rel R f o -> props_has f k = props_has o k.
Proof.
  intros H. unfold props_has. pose proof (rel_lookup f o k H) as Hl.
  by destruct (props_lookup f k), (props_lookup o k).
Qed.

Lemma rel_replace f o k v w :
  fields_rel R f o -> R v w ->
  fields_rel R (props_replace f k v) (props_replace o k w).
Proof.
  intros H Hvw.
  induction H as [|[k0 v0] [k0' w0] f o [Hk Hv] Hrest IH]; simpl in *;
    [constructor|].
  subst k0'. destruct (String.eqb k0 k); constructor; auto.
Qed.

Lemma rel_insert_index n f o k v w :
  fields_rel R f o -> R v w ->
  fields_rel R (props_insert_index n k v f) (props_insert_index n k w o).
Proof.
  intros H Hvw.
  induction H as [|[k0 v0] [k0' w0] f o [Hk Hv] Hrest IH]; simpl in *.
  - by repeat constructor.
  - subst k0'.
    destruct (index_of_key k0) as [n'|]; [destruct (n' <? n)%N|];
      repeat (constructor; auto).
Qed.

Lemma rel_set f o k v w :
  fields_rel R f o -> R v w ->
  fields_rel R (props_set f k v) (props_set o k w).
Proof.
  intros H Hvw. unfold props_set. rewrite <- (rel_has f o k H).
  destruct (props_has f k); [by apply rel_replace|].
  destruct (index_of_key k); [by apply rel_insert_index|].
  apply Forall2_app; [done|]. by repeat constructor.
Qed.

Lemma rel_delete f o k :
  fields_rel R f o -> fields_rel R (props_delete f k) (props_delete o k).
Proof.
  unfold props_delete.
  induction 1 as [|[k0 v0] [k0' w0] f o [Hk Hv] Hrest IH]; simpl in *;
    [constructor|].
  subst k0'. destruct (String.eqb k0 k); simpl; [done|]. by constructor.
Qed.

Lemma rel_define t u f o :
  fields_rel R t u -> fields_rel R f o ->
  fields_rel R (props_define t f) (props_define u o).
Proof.
  intros Htu Hfo. unfold props_define. rewrite <- (rel_keys f o Hfo).
  revert t u Htu. induction (props_keys f) as [|k ks IH]; intros t u Htu;
    simpl; [done|].
  apply IH. pose proof (rel_lookup f o k Hfo) as Hl.
  destruct (props_lookup f k), (props_lookup o k); try done.
  by apply rel_set.
Qed.

Lemma rel_assign t u f o :
  fields_rel R t u -> fields_rel R f o ->
  fields_rel R (props_assign t f) (props_assign u o).
Proof.
  intros Htu Hfo. unfold props_assign.
  apply rel_define; [done|]. by apply rel_delete.
Qed.

Lemma rel_spread f o :
  fields_rel R f o -> fields_rel R (props_spread f) (props_spread o).
Proof. intros H. apply rel_define; [constructor|done]. Qed.
End Related.

End ReifyFacts.

(* ===================================================================== *)
(** ** The store: getMatchingOption computes what the value model says *)
(* ===================================================================== *)

Module Refinement.
Import JS Store StoreFacts ReifyFacts.
Local Open Scope nat_scope.
Local Open Scope list_scope.
Local Open Scope store_scope.

Lemma preserves_le n n' st st' :
  n <= n' -> preserves n' st st' -> preserves n st st'.
Proof. intros Hn [Hlen H]. split; [done|]. intros l Hl. apply H. lia. Qed.

Lemma props_set_set {V : Type} (o : list (string * V)) k v v' :
  props_set (props_set o k v) k v' = props_set o k v'.
Proof.
  assert (props_has (props_set o k v) k = true) as Hhas.
  { apply PropsFacts.props_has_lookup. exists v.
    by rewrite PropsFacts.props_lookup_set, String.eqb_refl. }
  unfold props_set at 1. rewrite Hhas. unfold props_set.
  destruct (props_has o k) eqn:Ho.
  - clear Hhas. unfold props_has in Ho.
    induction o as [|[k0 v0] o IH]; simpl in *; [discriminate|].
    destruct (String.eqb k0 k) eqn:Hk; simpl.
    + by rewrite String.eqb_refl.
    + rewrite Hk. f_equal. by apply IH.
  - apply PropsFacts.props_has_false in Ho.
    destruct (index_of_key k) as [n|].
    + clear Hhas. induction o as [|[k0 v0] o IH]; simpl in *.
      * by rewrite String.eqb_refl.
      * destruct (String.eqb k0 k) eqn:Hk; [discriminate|].
        destruct (index_of_key k0) as [n'|]; [destruct (n' <? n)%N|]; simpl;
          rewrite ?Hk, ?String.eqb_refl; try reflexivity.
        f_equal. by apply IH.
    + clear Hhas. induction o as [|[k0 v0] o IH]; simpl in *.
      * by rewrite String.eqb_refl.
      * destruct (String.eqb k0 k) eqn:Hk; [discriminate|].
        f_equal. by apply IH.
Qed.

Lemma length_index_keys n : List.length (index_keys n) = n.
Proof. unfold index_keys. by rewrite length_map, length_seq. Qed.

Lemma props_keys_combine {V : Type} (ks : list string) (vs : list V) :
  List.length ks = List.length vs -> props_keys (combine ks vs) = ks.
Proof.
  revert vs. induction ks as [|k ks IH]; intros [|v vs]; simpl; try done.
  intros [= H]. f_equal. by apply IH.
Qed.

Lemma length_list_ascii_of_string s :
  List.length (list_ascii_of_string s) = String.length s.
Proof. induction s; simpl; congruence. Qed.

(** Reading a keyword of a stored object that stands for [o]. *)
Lemma lookup_reify depth st fields o k :
  reify_fields depth st fields = Some o ->
  reify depth st (match props_lookup fields k with
                  | Some x => x
                  | None => VUndefined
                  end) = Some (get o k).
Proof.
  intros H%reify_fields_rel. unfold get.
  pose proof (rel_lookup _ fields o k H) as Hl.
  destruct (props_lookup fields k), (props_lookup o k); try done.
  by destruct depth.
Qed.

(** [Object.keys] of a stored value lists the keys of what it stands
    for. *)
Lemma Object_keys_run depth (st : store) v j :
  reify depth st v = Some j ->
  Object_keys v st = (Returned (enumerable_keys j), st).
Proof.
  unfold Object_keys.
  destruct depth as [|depth]; destruct v as [| | | | s|l]; simpl;
    try (intros [= <-]; reflexivity); try discriminate.
  - intros [= <-]. unfold bind, ret. simpl. f_equal. f_equal.
    apply props_keys_combine.
    by rewrite length_index_keys, length_map, length_list_ascii_of_string.
  - intros [= <-]. unfold bind, ret. simpl. f_equal. f_equal.
    apply props_keys_combine.
    by rewrite length_index_keys, length_map, length_list_ascii_of_string.
  - destruct (st !! l) as [[fields|items]|] eqn:Hl; [| |discriminate].
    + fold (reify_fields depth st fields).
      destruct (reify_fields depth st fields) as [o|] eqn:Hf; simpl;
        [|discriminate].
      intros [= <-]. unfold bind, load. rewrite Hl. simpl. unfold ret.
      f_equal. f_equal. apply reify_fields_rel in Hf.
      exact (rel_keys _ fields o Hf).
    + destruct (traverse _ items) as [js|] eqn:Hf; simpl; [|discriminate].
      intros [= <-]. unfold bind, load. rewrite Hl. simpl. unfold ret.
      f_equal. f_equal. apply traverse_Some, Forall2_length in Hf.
      rewrite <- Hf. apply props_keys_combine. by rewrite length_index_keys.
Qed.

(** The objects [{ required: [key] }], one per key. *)
Lemma required_items_run keys (st : store) :
  exists items st',
    mapM (fun key =>
            required <- alloc (CArray [VStr key]) ;;
            alloc (CObject [("required", required)])) keys st
    = (Returned items, st') /\
    preserves (List.length st) st st' /\
    traverse (reify 2 st') items
    = Some (List.map (fun key => JObj [("required", JArr [JStr key])]) keys).
Proof.
  revert st. induction keys as [|key keys IH]; intros st.
  - exists [], st. split; [done|]. split; [apply preserves_refl|done].
  - set (st1 := (st ++ [CArray [VStr key]])
                  ++ [CObject [("required", VRef (List.length st))]]).
    destruct (IH st1) as (items & st' & Hrun & Hpres & Hitems).
    exists (VRef (S (List.length st)) :: items), st'.
    assert (List.length st1 = S (S (List.length st))) as Hlen1
        by (unfold st1; rewrite !length_app; simpl; lia).
    split; [|split].
    + cbn [mapM].
      erewrite bind_returned; last first.
      { erewrite bind_returned; [|apply alloc_run]. apply alloc_run. }
      rewrite length_app. simpl. rewrite Nat.add_1_r. fold st1.
      erewrite bind_returned; [|exact Hrun]. reflexivity.
    + eapply preserves_trans; [|eapply preserves_le; [|exact Hpres]; lia].
      unfold st1. rewrite <- app_assoc. by apply preserves_app.
    + cbn [traverse]. rewrite Hitems.
      assert (reify 2 st1 (VRef (S (List.length st)))
              = Some (JObj [("required", JArr [JStr key])])) as Hnew.
      { assert (st1 !! S (List.length st)
                = Some (CObject [("required", VRef (List.length st))])) as H1.
        { unfold st1. apply list_lookup_middle.
          rewrite length_app. simpl. lia. }
        assert (st1 !! List.length st = Some (CArray [VStr key])) as H0.
        { unfold st1. rewrite <- app_assoc. by apply list_lookup_middle. }
        simpl. rewrite H1. simpl. by rewrite H0. }
      by rewrite (reify_stable 2 2 st1 st' _ _ (Nat.le_refl _) Hpres Hnew).
Qed.

Lemma requiresAnyOf_run depth (st : store) l fields o :
  st !! l = Some (CObject fields) ->
  reify_fields depth st fields = Some o ->
  exists r st',
    requiresAnyOf (VRef l) st = (Returned r, st') /\
    preserves (List.length st) st st' /\
    reify 4 st' r = Some (JObj (AnyOfField.requiresAnyOf o)).
Proof.
  intros Hl Hfields. unfold requiresAnyOf, AnyOfField.requiresAnyOf.
  pose proof (lookup_reify _ _ _ _ "properties" Hfields) as Hprops.
  set (keys := enumerable_keys (get o "properties")).
  destruct (required_items_run keys st) as (items & st1 & Hitems & Hpres & Hreify).
  set (st2 := st1 ++ [CArray items]).
  set (st3 := st2 ++ [CObject [("anyOf", VRef (List.length st1))]]).
  exists (VRef (List.length st2)), st3.
  assert (preserves (List.length st1) st1 st3) as Hpres13.
  { unfold st3, st2. rewrite <- app_assoc. by apply preserves_app. }
  split; [|split].
  - erewrite bind_returned; [|by apply get_member_run].
    erewrite bind_returned; [|by eapply Object_keys_run].
    erewrite bind_returned; [|exact Hitems].
    erewrite bind_returned; [|apply alloc_run]. apply alloc_run.
  - eapply preserves_trans; [exact Hpres|].
    eapply preserves_le; [|exact Hpres13]. by destruct Hpres.
  - eapply (reify_object 3 st3).
    { unfold st3. by apply list_lookup_middle. }
    unfold reify_fields. cbn [traverse fst snd].
    erewrite (reify_array 2 st3); [reflexivity| |].
    { unfold st3, st2. rewrite <- app_assoc. by apply list_lookup_middle. }
    by eapply reify_items_stable; [| |exact Hreify].
Qed.

Ltac run_with H := erewrite bind_returned; [|H].

Lemma bind_assoc {A B C : Type} (m : M A) (k : A -> M B) (k' : B -> M C) st :
  bind (bind m k) k' st = bind m (fun a => bind (k a) k') st.
Proof. unfold bind. by destruct (m st) as [[a|e|] st']. Qed.

(** The end of the branch [if (option.anyOf)], once the clone at [lc] and
    the new array for its [allOf] exist. *)
Lemma wrap_tail_run (st1 : store) lc clone items r :
  st1 !! lc = Some (CObject clone) ->
  let a := List.length st1 in
  let st2 := st1 ++ [CArray items] in
  let st4 :=
    <[a := CArray (items ++ [r])]>
      (<[lc := CObject (props_set clone "allOf" (VRef a))]> st2) in
  (set_member (VRef lc) "allOf" (VRef a) ;;;
   allOf <- get_member (VRef lc) "allOf" ;;
   push allOf r ;;;
   ret (VRef lc)) st2 = (Returned (VRef lc), st4) /\
  preserves (List.length st1) st1 st2 /\
  (forall n, n <= lc -> preserves n st1 st4) /\
  st4 !! lc = Some (CObject (props_set clone "allOf" (VRef a))) /\
  st4 !! a = Some (CArray (items ++ [r])).
Proof.
  intros Hlc a st2 st4.
  assert (lc < a) as Hlt by (by eapply lookup_lt_Some).
  assert (st2 !! lc = Some (CObject clone)) as Hlc2
      by (by apply lookup_app_l_Some).
  assert (st2 !! a = Some (CArray items)) as Ha2
      by (by apply list_lookup_middle).
  set (st3 := <[lc := CObject (props_set clone "allOf" (VRef a))]> st2).
  assert (st3 !! lc = Some (CObject (props_set clone "allOf" (VRef a))))
    as Hlc3 by (apply list_lookup_insert_eq; by eapply lookup_lt_Some).
  assert (st3 !! a = Some (CArray items)) as Ha3.
  { unfold st3. rewrite list_lookup_insert_ne by lia. done. }
  split; [|split; [|split; [|split]]].
  - run_with ltac:(by apply set_member_run). fold st3.
    run_with ltac:(by apply get_member_run).
    rewrite PropsFacts.props_lookup_set, String.eqb_refl.
    run_with ltac:(by apply push_run). reflexivity.
  - by apply preserves_app.
  - intros n Hn. eapply preserves_trans; [apply preserves_app; lia|].
    eapply preserves_trans; apply preserves_insert; lia.
  - unfold st4. fold st3. rewrite list_lookup_insert_ne by lia. done.
  - unfold st4. fold st3. apply list_lookup_insert_eq. by eapply lookup_lt_Some.
Qed.

Lemma traverse_snoc {A B : Type} (f : A -> option B) l x ys y :
  traverse f l = Some ys -> f x = Some y ->
  traverse f (l ++ [x]) = Some (ys ++ [y]).
Proof.
  intros Hl Hx. apply traverse_Some. apply traverse_Some in Hl.
  apply Forall2_app; [done|]. by repeat constructor.
Qed.

(** The clone with its new [allOf] stands for what the value model
    builds. *)
Lemma wrap_result_reify depth (st st4 : store) fields o r req a items js :
  reify_fields depth st fields = Some o ->
  reify depth st r = Some req ->
  traverse (reify depth st) items = Some js ->
  preserves (List.length st) st st4 ->
  st4 !! a = Some (CArray (items ++ [r])) ->
  reify_fields (S depth) st4 (props_set (props_spread fields) "allOf" (VRef a))
  = Some (props_set (props_spread o) "allOf" (JArr (js ++ [req]))).
Proof.
  intros Hfields Hr Hitems Hpres Ha.
  apply reify_fields_rel. apply rel_set.
  - apply rel_spread. apply reify_fields_rel.
    eapply reify_fields_stable; [|exact Hpres|exact Hfields]. lia.
  - eapply reify_array; [exact Ha|]. apply traverse_snoc.
    + by eapply reify_items_stable; [| |exact Hitems].
    + by eapply reify_stable; [| |exact Hr].
Qed.

Lemma wrapInAllOf_run depth (st : store) l fields o r :
  st !! l = Some (CObject fields) ->
  reify_fields depth st fields = Some o ->
  reify depth st r = Some (JObj (AnyOfField.requiresAnyOf o)) ->
  match AnyOfField.wrapInAllOf o with
  | Normal s =>
      exists l' fields' st',
        wrapInAllOf (VRef l) r st = (Returned (VRef l'), st') /\
        preserves (List.length st) st st' /\
        List.length st <= l' /\
        st' !! l' = Some (CObject fields') /\
        forall c,
          reify_fields (S depth) (<[l' := c]> st') fields' = Some s
  | Throw e => exists st', wrapInAllOf (VRef l) r st = (Thrown e, st')
  end.
Proof.
  intros Hl Hfields Hr.
  unfold wrapInAllOf, AnyOfField.wrapInAllOf.
  set (lc := List.length st). set (clone := props_spread fields).
  set (st1 := st ++ [CObject clone]).
  assert (st1 !! lc = Some (CObject clone)) as Hlc
      by (by apply list_lookup_middle).
  assert (List.length st1 = S lc) as Hlen1
      by (unfold st1; rewrite length_app; simpl; lia).
  assert (reify_fields depth st clone = Some (props_spread o)) as Hclone.
  { apply reify_fields_rel, rel_spread. by apply reify_fields_rel. }
  pose proof (lookup_reify _ _ _ _ "allOf" Hclone) as HallOf.
  set (allOfV := match props_lookup clone "allOf" with
                 | Some x => x
                 | None => VUndefined
                 end) in *.
  run_with ltac:(by apply own_properties_run).
  run_with ltac:(apply alloc_run). fold lc clone st1.
  run_with ltac:(by apply get_member_run). fold allOfV.
  rewrite (truthy_reify _ _ _ _ HallOf).
  destruct (negb (JS.truthy (get (props_spread o) "allOf"))) eqn:Hfalsy.
  - (* no allOf yet: a new empty array *)
    cbn [JS.bind]. rewrite PropsFacts.get_set. simpl String.eqb. cbn iota.
    rewrite props_set_set.
    destruct (wrap_tail_run st1 lc clone [] r Hlc)
      as (Hrun & _ & Hpres & Hlc4 & Ha4).
    simpl app in *.
    eexists lc, _, _. split; [|split; [|split; [|split]]].
    + rewrite bind_assoc. run_with ltac:(apply alloc_run). exact Hrun.
    + eapply preserves_trans; [by apply preserves_app|]. by apply Hpres.
    + done.
    + exact Hlc4.
    + intros c.
      apply (wrap_result_reify depth st _ fields o r _ _ [] []);
        [done|done|done| |].
      * eapply preserves_trans; [by apply preserves_app|].
        eapply preserves_trans; [by apply Hpres|]. by apply preserves_insert.
      * rewrite list_lookup_insert_ne by lia. exact Ha4.
  - (* an allOf: it has to be an array, which is copied *)
    destruct (get (props_spread o) "allOf") as [| |b|n|s|js|o'] eqn:Hget;
      try discriminate; apply reify_inv in HallOf; cbn [JS.bind].
    + rewrite HallOf. eexists. rewrite bind_assoc.
      by erewrite bind_thrown.
    + rewrite HallOf. eexists. rewrite bind_assoc.
      by erewrite bind_thrown.
    + rewrite HallOf. eexists. rewrite bind_assoc.
      run_with ltac:(reflexivity).
      run_with ltac:(by apply set_member_run).
      run_with ltac:(apply get_member_run, list_lookup_insert_eq;
                     by eapply lookup_lt_Some).
      rewrite PropsFacts.props_lookup_set, String.eqb_refl.
      by erewrite bind_thrown.
    + destruct HallOf as (la & items & depth' & -> & -> & Hla & Hitems).
      rewrite PropsFacts.get_set. simpl String.eqb. cbn iota.
      rewrite props_set_set.
      destruct (wrap_tail_run st1 lc clone items r Hlc)
        as (Hrun & _ & Hpres & Hlc4 & Ha4).
      eexists lc, _, _. split; [|split; [|split; [|split]]].
      * rewrite bind_assoc.
        run_with ltac:(unfold slice;
                       run_with ltac:(apply load_run;
                                      by apply lookup_app_l_Some);
                       apply alloc_run).
        exact Hrun.
      * eapply preserves_trans; [by apply preserves_app|]. by apply Hpres.
      * done.
      * exact Hlc4.
      * intros c.
        apply (wrap_result_reify (S depth') st _ fields o r _ _ items js);
          [done|done| | |].
        -- by eapply reify_items_stable; [| |exact Hitems];
             [lia|apply preserves_refl].
        -- eapply preserves_trans; [by apply preserves_app|].
           eapply preserves_trans; [by apply Hpres|]. by apply preserves_insert.
        -- rewrite list_lookup_insert_ne by lia. exact Ha4.
    + destruct HallOf as (la & fields' & depth' & -> & -> & Hla & _).
      eexists. rewrite bind_assoc. erewrite bind_thrown; [reflexivity|].
      unfold slice. run_with ltac:(apply load_run; by apply lookup_app_l_Some).
      reflexivity.
Qed.


Lemma assignAll_run depth (st : store) l fields o r req definitions jdefs :
  st !! l = Some (CObject fields) ->
  reify_fields depth st fields = Some o ->
  reify depth st definitions = Some jdefs ->
  reify depth st r = Some (JObj req) ->
  exists l' fields' st',
    assignAll definitions (VRef l) r st = (Returned (VRef l'), st') /\
    preserves (List.length st) st st' /\
    List.length st <= l' /\
    st' !! l' = Some (CObject fields') /\
    forall c,
      reify_fields depth (<[l' := c]> st') fields'
      = Some (props_assign (props_assign [("definitions", jdefs)] o) req).
Proof.
  intros Hl Hfields Hdefs Hr. unfold assignAll.
  destruct (reify_object_inv _ _ _ _ Hr)
    as (lr & rfields & depth' & -> & -> & Hlr & Hrfields).
  set (lt := List.length st).
  set (st1 := st ++ [CObject [("definitions", definitions)]]).
  set (fields1 := props_assign [("definitions", definitions)] fields).
  set (st2 := <[lt := CObject fields1]> st1).
  set (fields2 := props_assign fields1 rfields).
  set (st3 := <[lt := CObject fields2]> st2).
  assert (l < lt) as Hlt by (by eapply lookup_lt_Some).
  assert (lr < lt) as Hlrt by (by eapply lookup_lt_Some).
  assert (lt < List.length st1) as Hlt1
      by (unfold st1; rewrite length_app; simpl; lia).
  assert (st1 !! lt = Some (CObject [("definitions", definitions)])) as H1
      by (by apply list_lookup_middle).
  assert (st2 !! lt = Some (CObject fields1)) as H2
      by (by apply list_lookup_insert_eq).
  assert (st3 !! lt = Some (CObject fields2)) as H3.
  { apply list_lookup_insert_eq. unfold st2. by rewrite length_insert. }
  assert (forall n, n <= lt -> preserves n st st1) as Hp1
      by (intros; by apply preserves_app).
  assert (forall n, n <= lt -> preserves n st st3) as Hp3.
  { intros n Hn. eapply preserves_trans; [by apply Hp1|].
    eapply preserves_trans; by apply preserves_insert. }
  exists lt, fields2, st3. split; [|split; [|split; [|split]]].
  - run_with ltac:(apply alloc_run). fold lt st1.
    run_with ltac:(eapply Object_assign_run;
                   [exact H1|apply own_properties_run;
                             by apply lookup_app_l_Some]).
    fold fields1 st2.
    run_with ltac:(eapply Object_assign_run;
                   [exact H2|apply own_properties_run]).
    { reflexivity. }
    unfold st2. rewrite list_lookup_insert_ne by lia.
    by apply lookup_app_l_Some.
  - by apply Hp3.
  - done.
  - exact H3.
  - intros c.
    assert (preserves (List.length st) st (<[lt := c]> st3)) as Hp.
    { eapply preserves_trans; [by apply Hp3|]. by apply preserves_insert. }
    apply reify_fields_rel. unfold fields2, fields1.
    apply rel_assign; [apply rel_assign|].
    + apply Forall2_cons; [split; [done|]|apply Forall2_nil].
      cbn [snd]. by eapply reify_stable; [| |exact Hdefs].
    + apply reify_fields_rel.
      by eapply reify_fields_stable; [| |exact Hfields].
    + apply reify_fields_rel.
      eapply reify_fields_stable; [|exact Hp|exact Hrfields]. lia.
Qed.

(** One turn of the loop: the schema that is built in the store stands
    for the schema of the value model, and what the value model throws is
    thrown. *)
Lemma matchSchema_run depth (st : store) l fields o definitions jdefs :
  4 <= depth ->
  st !! l = Some (CObject fields) ->
  reify_fields depth st fields = Some o ->
  reify depth st definitions = Some jdefs ->
  match AnyOfField.matchSchema jdefs o with
  | Normal s =>
      exists v st',
        matchSchema definitions (VRef l) st = (Returned v, st') /\
        preserves (List.length st) st st' /\
        reify (S (S depth)) st' v = Some (JObj s)
  | Throw e =>
      exists st', matchSchema definitions (VRef l) st = (Thrown e, st')
  end.
Proof.
  intros Hdepth Hl Hfields Hdefs.
  unfold matchSchema, AnyOfField.matchSchema.
  run_with ltac:(by apply get_member_run).
  rewrite (truthy_reify _ _ _ _ (lookup_reify _ _ _ _ "properties" Hfields)).
  destruct (JS.truthy (get o "properties")).
  - unfold augmentedSchema, AnyOfField.augmentedSchema.
    destruct (requiresAnyOf_run _ _ _ _ _ Hl Hfields)
      as (r & st1 & Hrun1 & Hpres1 & Hr).
    assert (st1 !! l = Some (CObject fields)) as Hl1.
    { destruct Hpres1 as [_ ->]; [done|]. by eapply lookup_lt_Some. }
    assert (reify_fields depth st1 fields = Some o) as Hfields1
        by (by eapply reify_fields_stable; [| |exact Hfields]).
    assert (reify depth st1 r = Some (JObj (AnyOfField.requiresAnyOf o)))
      as Hr1 by (by eapply reify_stable; [| |exact Hr];
                    [|apply preserves_refl]).
    run_with ltac:(exact Hrun1).
    run_with ltac:(by apply get_member_run).
    rewrite (truthy_reify _ _ _ _ (lookup_reify _ _ _ _ "anyOf" Hfields1)).
    destruct (JS.truthy (get o "anyOf")).
    + pose proof (wrapInAllOf_run _ _ _ _ _ _ Hl1 Hfields1 Hr1) as Hwrap.
      destruct (AnyOfField.wrapInAllOf o) as [s|e]; cbn [JS.bind].
      * destruct Hwrap as (l' & fields' & st' & Hrun & Hpres & Hl' & Hcell & Hreify).
        eexists _, _. split; [|split].
        -- run_with ltac:(exact Hrun).
           run_with ltac:(by apply delete_member_run). reflexivity.
        -- eapply preserves_trans; [exact Hpres1|].
           eapply preserves_le; [by destruct Hpres1|].
           eapply preserves_trans; [exact Hpres|]. by apply preserves_insert.
        -- eapply reify_object.
           { apply list_lookup_insert_eq. by eapply lookup_lt_Some. }
           apply reify_fields_rel, rel_delete, reify_fields_rel.
           apply Hreify.
      * destruct Hwrap as (st' & Hrun). eexists.
        by erewrite bind_thrown.
    + destruct (assignAll_run _ _ _ _ _ _ _ _ _ Hl1 Hfields1
                  (reify_stable _ _ _ _ _ _ (Nat.le_refl _) Hpres1 Hdefs) Hr1)
        as (l' & fields' & st' & Hrun & Hpres & Hl' & Hcell & Hreify).
      cbn [JS.bind]. eexists _, _. split; [|split].
      * run_with ltac:(exact Hrun).
        run_with ltac:(by apply delete_member_run). reflexivity.
      * eapply preserves_trans; [exact Hpres1|].
        eapply preserves_le; [by destruct Hpres1|].
        eapply preserves_trans; [exact Hpres|]. by apply preserves_insert.
      * eapply reify_object.
        { apply list_lookup_insert_eq. by eapply lookup_lt_Some. }
        apply reify_fields_rel, rel_delete, reify_fields_rel.
        eapply reify_fields_stable;
          [apply (Nat.le_succ_diag_r depth)|apply preserves_refl|].
        apply Hreify.
  - unfold withDefinitions.
    eexists _, _. split; [|split].
    + run_with ltac:(by apply own_properties_run). apply alloc_run.
    + by apply preserves_app.
    + eapply reify_stable; [apply (Nat.le_succ_diag_r (S depth))
                           |apply preserves_refl|].
      eapply reify_object; [by apply list_lookup_middle|].
      apply reify_fields_rel, rel_set.
      * apply rel_spread, reify_fields_rel.
        eapply reify_fields_stable; [|by apply preserves_app|exact Hfields].
        done.
      * eapply reify_stable; [|by apply preserves_app|exact Hdefs]. done.
Qed.

Lemma Forall2_map_lookup {A B C : Type} (P : A -> C -> Prop) (g : B -> C)
    (l : list A) (k : list B) i x :
  Forall2 P l (List.map g k) ->
  l !! i = Some x ->
  exists y, k !! i = Some y /\ P x (g y).
Proof.
  revert l i. induction k as [|y k IH]; intros l i; simpl.
  - inversion 1; subst. by rewrite lookup_nil.
  - inversion 1 as [|x' ? l' ? Hx Hrest]; subst.
    destruct i as [|i]; simpl.
    + intros [= <-]. eauto.
    + intros Hi. by apply (IH l' i).
Qed.

Section Loop.
Variable isValid : JSON -> JSON -> bool.
Variables (depth vdepth : nat).
Hypothesis depth_ge : 4 <= depth.
Hypothesis vdepth_ge : S (S depth) <= vdepth.

Variables (st0 : store) (la : nat) (items : list value) (opts : list Obj).
Variables (formData definitions : value) (jfd jdefs : JSON).
Hypothesis options_cell : st0 !! la = Some (CArray items).
Hypothesis options_reify :
  traverse (reify (S depth) st0) items = Some (List.map JObj opts).
Hypothesis formData_reify : reify depth st0 formData = Some jfd.
Hypothesis definitions_reify : reify depth st0 definitions = Some jdefs.

Lemma getMatchingOption_from_run turns i (st : store) :
  preserves (List.length st0) st0 st ->
  List.length items <= i + turns ->
  (getMatchingOption_from (liftValidator isValid vdepth) turns
     formData (VRef la) definitions i st).1
  = outcome_of
      (AnyOfField.getMatchingOption_from isValid jfd jdefs i (drop i opts)).
Proof.
  assert (List.length opts = List.length items) as Hlen.
  { apply traverse_Some, Forall2_length in options_reify.
    by rewrite length_map in options_reify. }
  revert i st. induction turns as [|turns IH]; intros i st Hpres Hturns.
  - assert (st !! la = Some (CArray items)) as Hla.
    { destruct Hpres as [_ ->]; [done|]. by eapply lookup_lt_Some. }
    cbn [getMatchingOption_from]. unfold array_length.
    run_with ltac:(run_with ltac:(by apply load_run); reflexivity).
    destruct (Nat.ltb_spec i (List.length items)); [lia|].
    rewrite drop_ge by lia. reflexivity.
  - assert (st !! la = Some (CArray items)) as Hla.
    { destruct Hpres as [_ ->]; [done|]. by eapply lookup_lt_Some. }
    cbn [getMatchingOption_from]. unfold array_length.
    run_with ltac:(run_with ltac:(by apply load_run); reflexivity).
    destruct (Nat.ltb_spec i (List.length items)) as [Hi|Hi];
      [|rewrite drop_ge by lia; reflexivity].
    destruct (lookup_lt_is_Some_2 items i Hi) as [v Hv].
    destruct (Forall2_map_lookup _ _ _ _ _ _
                (proj1 (traverse_Some _ _ _) options_reify) Hv)
      as (o & Ho & Hreify).
    destruct (reify_object_inv _ _ _ _ Hreify)
      as (l & fields & depth' & -> & [= <-] & Hl & Hfields).
    rewrite (drop_S _ _ _ Ho). cbn [AnyOfField.getMatchingOption_from].
    unfold array_item.
    run_with ltac:(run_with ltac:(by apply load_run); reflexivity).
    rewrite Hv.
    assert (st !! l = Some (CObject fields)) as Hl'.
    { destruct Hpres as [_ ->]; [done|]. by eapply lookup_lt_Some. }
    pose proof (matchSchema_run depth st l fields o definitions jdefs
                  depth_ge Hl'
                  (reify_fields_stable _ _ _ _ _ _ (Nat.le_refl _) Hpres Hfields)
                  (reify_stable _ _ _ _ _ _ (Nat.le_refl _) Hpres
                     definitions_reify)) as Hschema.
    destruct (AnyOfField.matchSchema jdefs o) as [s|e]; cbn [JS.bind].
    + destruct Hschema as (v & st' & Hrun & Hpres' & Hs).
      run_with ltac:(exact Hrun).
      assert (preserves (List.length st0) st0 st') as Hpres0.
      { eapply preserves_trans; [exact Hpres|].
        eapply preserves_le; [|exact Hpres']. by destruct Hpres. }
      assert (liftValidator isValid vdepth st' v formData
              = isValid (JObj s) jfd) as Hvalid.
      { assert (depth <= vdepth) as Hle by lia.
        unfold liftValidator.
        rewrite (reify_stable _ vdepth _ st' _ _ vdepth_ge
                   (preserves_refl _ _) Hs).
        by rewrite (reify_stable _ vdepth _ _ _ _ Hle Hpres0 formData_reify). }
      run_with ltac:(reflexivity). rewrite Hvalid.
      destruct (isValid (JObj s) jfd); [reflexivity|].
      apply IH; [done|lia].
    + destruct Hschema as (st' & Hrun). by erewrite bind_thrown.
Qed.
End Loop.

(** On arguments that stand for JSON values, [getMatchingOption] over the
    store returns or throws what [getMatchingOption] over these values
    does. *)
Lemma getMatchingOption_run (isValid : JSON -> JSON -> bool)
    (depth vdepth : nat) (st : store) (formData options definitions : value)
    (jfd : JSON) (opts : list Obj) (jdefs : JSON) :
  depth + 6 <= vdepth ->
  reify depth st formData = Some jfd ->
  reify depth st options = Some (JArr (List.map JObj opts)) ->
  reify depth st definitions = Some jdefs ->
  (getMatchingOption (liftValidator isValid vdepth)
     formData options definitions st).1
  = outcome_of (AnyOfField.getMatchingOption isValid jfd opts jdefs).
Proof.
  intros Hdepth Hfd Hopts Hdefs.
  destruct (reify_array_inv _ _ _ _ Hopts)
    as (la & items & depth' & -> & -> & Hla & Hitems).
  unfold getMatchingOption, array_length.
  run_with ltac:(run_with ltac:(by apply load_run); reflexivity).
  assert (4 <= S depth' + 4) as Hge by lia.
  assert (S (S (S depth' + 4)) <= vdepth) as Hvge by lia.
  rewrite (getMatchingOption_from_run isValid (S depth' + 4) vdepth
             Hge Hvge st la items opts formData definitions
             jfd jdefs Hla); try apply preserves_refl; try lia.
  - by rewrite drop_0.
  - eapply reify_items_stable; [|apply preserves_refl|exact Hitems]. lia.
  - eapply reify_stable; [|apply preserves_refl|exact Hfd]. lia.
  - eapply reify_stable; [|apply preserves_refl|exact Hdefs]. lia.
Qed.

End Refinement.

(* ===================================================================== *)
(** ** Matching: which index getMatchingOption returns *)
(* ===================================================================== *)

Module MatchingFacts.
Import JS AnyOfField PropsFacts.

Section Matching.
Variable isValid : JSON -> JSON -> bool.
Implicit Types (formData definitions : JSON) (options rest : list Obj).

(** Only a truthy [allOf] that is no array makes the augmentation throw. *)
Lemma wrapInAllOf_wellFormed option :
  allOfWellFormed option = true ->
  exists schema, wrapInAllOf option = Normal schema.
Proof.
  unfold allOfWellFormed, wrapInAllOf. rewrite get_spread.
  destruct (get option "allOf") eqn:Hall; simpl; intros Hwf;
    try discriminate;
    try (rewrite get_set; simpl; eauto; fail).
  - destruct b; [discriminate|]. simpl. rewrite get_set. simpl. eauto.
  - destruct (n =? 0); [|discriminate]. simpl. rewrite get_set. simpl. eauto.
  - destruct (String.eqb s ""); [|discriminate]. simpl. rewrite get_set.
    simpl. eauto.
Qed.

Lemma matchSchema_wellFormed definitions option :
  allOfWellFormed option = true ->
  exists schema, matchSchema definitions option = Normal schema.
Proof.
  intros Hwf. unfold matchSchema, augmentedSchema.
  destruct (truthy (get option "properties")); [|eauto].
  destruct (truthy (get option "anyOf")); simpl; [|eauto].
  destruct (wrapInAllOf_wellFormed option Hwf) as [schema ->]. simpl. eauto.
Qed.

Lemma wrapInAllOf_throws option e :
  wrapInAllOf option = Throw e -> e = TypeError.
Proof.
  unfold wrapInAllOf.
  destruct (negb (truthy (get (props_spread option) "allOf"))); simpl.
  - rewrite get_set. simpl. discriminate.
  - destruct (get (props_spread option) "allOf"); simpl;
      try (intros [= <-]; reflexivity).
    rewrite get_set. simpl. discriminate.
Qed.

Lemma matchSchema_throws definitions option e :
  matchSchema definitions option = Throw e -> e = TypeError.
Proof.
  unfold matchSchema, augmentedSchema.
  destruct (truthy (get option "properties")); [|discriminate].
  destruct (truthy (get option "anyOf")); simpl; [|discriminate].
  destruct (wrapInAllOf option) eqn:Hw; simpl; [discriminate|].
  intros [= <-]. eapply wrapInAllOf_throws, Hw.
Qed.

(** The loop returns normally when every option is well formed. *)
Lemma getMatchingOption_from_returns formData definitions rest i :
  forallb allOfWellFormed rest = true ->
  exists r, getMatchingOption_from isValid formData definitions i rest = Normal r.
Proof.
  revert i. induction rest as [|option rest IH]; intros i; simpl; [eauto|].
  intros [Hwf Hrest]%andb_prop.
  destruct (matchSchema_wellFormed definitions option Hwf) as [schema ->].
  simpl. destruct (isValid (JObj schema) formData); eauto.
Qed.

(** What the loop started at index [i] over [rest] returns: the position
    of the first option of [rest] that matches, counted from [i], or [0]
    when none does. *)
Lemma getMatchingOption_from_spec formData definitions rest i r :
  getMatchingOption_from isValid formData definitions i rest = Normal r ->
  (exists k option,
      r = (i + k)%nat /\ rest !! k = Some option /\
      optionMatches isValid formData definitions option = true /\
      forall j option', (j < k)%nat -> rest !! j = Some option' ->
        optionMatches isValid formData definitions option' = false)
  \/ (r = 0%nat /\
      forall j option', rest !! j = Some option' ->
        optionMatches isValid formData definitions option' = false).
Proof.
  revert i. induction rest as [|option rest IH]; intros i; simpl.
  - intros [= <-]. right. split; [done|]. intros j option' Hj.
    by rewrite lookup_nil in Hj.
  - destruct (matchSchema definitions option) as [schema|e] eqn:Hschema;
      simpl; [|discriminate].
    destruct (isValid (JObj schema) formData) eqn:Hvalid.
    + intros [= <-]. left. exists 0%nat, option.
      split; [lia|]. split; [done|]. split; [|intros; lia].
      unfold optionMatches. by rewrite Hschema.
    + intros Hr.
      assert (optionMatches isValid formData definitions option = false)
        as Hhead by (unfold optionMatches; by rewrite Hschema).
      destruct (IH _ Hr) as [(k & option' & -> & Hk & Hm & Hbefore)|[-> Hnone]].
      * left. exists (S k), option'.
        split; [lia|]. split; [done|]. split; [done|].
        intros [|j] o Hj Ho; simpl in Ho; [by simplify_eq|].
        eapply Hbefore; [|done]. lia.
      * right. split; [done|].
        intros [|j] o Ho; simpl in Ho; [by simplify_eq|eauto].
Qed.
End Matching.
End MatchingFacts.

(* ===================================================================== *)
(** ** Switching: what onOptionChange emits *)
(* ===================================================================== *)

Module SwitchingFacts.
Import JS AnyOfField PropsFacts.

Lemma array_get_Some {A : Type} (a : list A) (i : Z) (x : A) :
  array_get a i = Some x <->
  0 <= i /\ a !! Z.to_nat i = Some x.
Proof.
  unfold array_get. destruct (Z.ltb_spec i 0); split.
  - discriminate.
  - intros [? _]. lia.
  - auto.
  - by intros [_ ?].
Qed.

Lemma array_get_lt {A : Type} (a : list A) (i : Z) (x : A) :
  array_get a i = Some x -> 0 <= i < Z.of_nat (List.length a).
Proof.
  intros [Hi Hx]%array_get_Some. apply lookup_lt_Some in Hx. lia.
Qed.

Lemma remove_at_lookup {A : Type} (a : list A) (j i : nat) :
  remove_at j a !! i = if (i <? j)%nat then a !! i else a !! S i.
Proof.
  unfold remove_at. revert a i. induction j as [|j IH]; intros a i.
  - simpl. by destruct a.
  - destruct a as [|x a]; simpl.
    + by destruct (i <? S j)%nat.
    + destruct i as [|i]; simpl; [done|]. by rewrite IH.
Qed.

(** The elements of [remove_at j a] are those of [a] at the other
    indices. *)
Lemma In_remove_at {A : Type} (a : list A) (j : nat) (x : A) :
  In x (remove_at j a) <-> exists i, i <> j /\ a !! i = Some x.
Proof.
  rewrite <- list_elem_of_In, list_elem_of_lookup. split.
  - intros [i Hi]. rewrite remove_at_lookup in Hi.
    destruct (Nat.ltb_spec i j); [exists i|exists (S i)]; split; auto; lia.
  - intros [i [Hne Hi]]. destruct (Nat.ltb_spec i j) as [Hlt|Hge].
    + exists i. rewrite remove_at_lookup.
      by destruct (Nat.ltb_spec i j); [|lia].
    + destruct i as [|i]; [lia|]. exists i. rewrite remove_at_lookup.
      by destruct (Nat.ltb_spec i j); [lia|].
Qed.

(** The loop over [optionsToDiscard] visits exactly the property names
    that a branch other than the selected one declares. *)
Lemma In_keysToDiscard options j key :
  In key (keysToDiscard (remove_at j options)) <->
  exists i, i <> j /\ declares options i key.
Proof.
  unfold keysToDiscard, declares. rewrite in_flat_map. split.
  - intros (option & Hin & Hkey). apply In_remove_at in Hin as (i & Hne & Hi).
    exists i. split; [done|]. exists option. split; [done|].
    destruct (truthy (get option "properties")); [done|by destruct Hkey].
  - intros (i & Hne & option & Hi & Htruthy & Hkey).
    exists option. split; [apply In_remove_at; eauto|]. by rewrite Htruthy.
Qed.

Lemma props_delete_absent {V : Type} (o : list (string * V)) k :
  props_has o k = false -> props_delete o k = o.
Proof.
  unfold props_has, props_delete.
  induction o as [|[k0 v0] o IH]; simpl; [done|].
  destruct (String.eqb_spec k0 k); simpl; [discriminate|].
  intros H. by rewrite (IH H).
Qed.

Lemma withoutKeys_cons key keys (o : Obj) :
  withoutKeys (key :: keys) o = withoutKeys keys (props_delete o key).
Proof.
  unfold withoutKeys, props_delete.
  induction o as [|[k0 v0] o IH]; simpl in *; [done|].
  destruct (String.eqb k0 key); simpl; rewrite IH; reflexivity.
Qed.

Lemma props_keys_withoutKeys keys (o : Obj) k :
  In k (props_keys (withoutKeys keys o)) <-> In k (props_keys o) /\ ~ In k keys.
Proof.
  unfold withoutKeys, props_keys. rewrite !in_map_iff. split.
  - intros [[k0 v0] [<- [Hin Hk]%filter_In]]. simpl in *. split.
    + by exists (k0, v0).
    + intros Hin'. apply negb_true_iff in Hk.
      assert (existsb (String.eqb k0) keys = true); [|congruence].
      apply existsb_exists. exists k0. split; [done|apply String.eqb_refl].
  - intros [[[k0 v0] [<- Hin]] Hnot]. exists (k0, v0). split; [done|].
    apply filter_In. split; [done|]. simpl in *. apply negb_true_iff.
    destruct (existsb (String.eqb k0) keys) eqn:Hex; [|done].
    apply existsb_exists in Hex as (k' & Hk' & ->%String.eqb_eq). done.
Qed.

(** On an object that does not shadow [hasOwnProperty], the deletions
    amount to filtering the keys out. *)
Lemma discardKeys_object keys (o : Obj) :
  props_has o "hasOwnProperty" = false ->
  discardKeys (JObj o) keys = Normal (JObj (withoutKeys keys o)).
Proof.
  revert o. induction keys as [|key keys IH]; intros o Hshadow; simpl.
  - unfold withoutKeys. simpl. f_equal. f_equal.
    induction o as [|kv o IHo]; simpl; [done|]. f_equal.
    apply IHo. revert Hshadow. unfold props_has. simpl. destruct kv as [k0 v0].
    by destruct (String.eqb k0 "hasOwnProperty").
  - rewrite Hshadow, withoutKeys_cons.
    assert (props_has (props_delete o key) "hasOwnProperty" = false) as Hshadow'.
    { apply props_has_false. rewrite props_lookup_delete.
      destruct (String.eqb key "hasOwnProperty"); [done|].
      by apply props_has_false. }
    destruct (props_has o key) eqn:Hkey; simpl.
    + by apply IH.
    + rewrite (props_delete_absent o key Hkey). by apply IH.
Qed.

Section Switching.
Variable computeDefaults : JSON -> JSON -> JSON -> JSON.

(** A switch that completes went to an index of the option list. *)
Lemma onOptionChange_inv this option emitted this' :
  onOptionChange computeDefaults this option = Normal (emitted, this') ->
  exists j branch,
    parseInt option = Some j /\
    array_get (options (props this)) j = Some branch /\
    this' = mkComponent (props this) j.
Proof.
  unfold onOptionChange. destruct (parseInt option) as [j|]; [|discriminate].
  unfold newOptionOf.
  destruct (array_get (options (props this)) j) as [branch|] eqn:Hj;
    [|discriminate].
  intros H. exists j, branch. split; [done|]. split; [done|].
  destruct (JS.bind (has_member "$ref" (JObj branch)) _) as [newOption|];
    simpl in H; [|discriminate].
  destruct (discardsOldProperties _ newOption) as [d|]; simpl in H;
    [|discriminate].
  destruct (if d then _ else _) as [e|]; simpl in H; [|discriminate].
  congruence.
Qed.
End Switching.
End SwitchingFacts.

(* ===================================================================== *)
(** ** Properties of matching and of the selection *)
(* ===================================================================== *)

Import JS AnyOfField.

(** C1, as stated, fails: for the union of the two object branches [{a}]
    and [{b}] and the data [{}], no index is both the result of
    [getMatchingOption] and the index of a branch that validates: the
    result is the fallback [0], which does not validate. *)
Lemma fallback_index_does_not_validate :
  ~ exists i,
      getMatchingOption Sample.isValid (JObj []) Sample.branchesAB (JObj [])
        = Normal i /\
      matchesAt Sample.isValid (JObj []) Sample.branchesAB (JObj []) i.
Proof.
  intros (i & Hi & option & Hoption & Hmatch).
  vm_compute in Hi. injection Hi as <-.
  simpl in Hoption. injection Hoption as <-.
  vm_compute in Hmatch. discriminate.
Qed.

(** C1, amended: for every list of well-formed branches, form data and
    definitions table, [getMatchingOption] returns an index [r] such that no
    branch with a smaller index validates, once augmented; when some branch
    validates, branch [r] does, so [r] is the smallest such index; when
    none does, [r] is [0]. *)
Theorem getMatchingOption_first_match
    (isValid : JSON -> JSON -> bool) (formData : JSON) (options : list Obj)
    (definitions : JSON) :
  forallb allOfWellFormed options = true ->
  exists r,
    getMatchingOption isValid formData options definitions = Normal r /\
    (forall j, (j < r)%nat -> ~ matchesAt isValid formData options definitions j) /\
    ((exists i, matchesAt isValid formData options definitions i) ->
     matchesAt isValid formData options definitions r) /\
    ((forall i, ~ matchesAt isValid formData options definitions i) ->
     r = 0%nat).
Proof.
  intros Hwf.
  destruct (MatchingFacts.getMatchingOption_from_returns
              isValid formData definitions options 0 Hwf) as [r Hr].
  exists r. split; [exact Hr|].
  destruct (MatchingFacts.getMatchingOption_from_spec
              isValid formData definitions options 0 r Hr)
    as [(k & option & -> & Hk & Hm & Hbefore)|[-> Hnone]]; simpl.
  - split; [|split].
    + intros j Hj (option' & Hj' & Hm').
      rewrite (Hbefore j option' Hj Hj') in Hm'. discriminate.
    + intros _. by exists option.
    + intros Hno. destruct (Hno k). by exists option.
  - split; [|split].
    + intros j Hj. lia.
    + intros (i & option & Hi & Hm). rewrite (Hnone i option Hi) in Hm.
      discriminate.
    + done.
Qed.

Lemma getMatchingOption_first_match_witness :
  forallb allOfWellFormed Sample.branchesAB = true /\
  exists r,
    getMatchingOption Sample.isValid (JObj [("b", JNum 2)])
                      Sample.branchesAB (JObj []) = Normal r /\
    (forall j, (j < r)%nat ->
       ~ matchesAt Sample.isValid (JObj [("b", JNum 2)])
                   Sample.branchesAB (JObj []) j) /\
    ((exists i, matchesAt Sample.isValid (JObj [("b", JNum 2)])
                          Sample.branchesAB (JObj []) i) ->
     matchesAt Sample.isValid (JObj [("b", JNum 2)])
               Sample.branchesAB (JObj []) r) /\
    ((forall i, ~ matchesAt Sample.isValid (JObj [("b", JNum 2)])
                            Sample.branchesAB (JObj []) i) ->
     r = 0%nat).
Proof.
  split; [reflexivity|].
  apply (getMatchingOption_first_match Sample.isValid (JObj [("b", JNum 2)])
           Sample.branchesAB (JObj [])).
  reflexivity.
Defined.

(** What [componentWillReceiveProps] leaves selected is always the index
    that [getMatchingOption] returns for the new props. *)
Lemma componentWillReceiveProps_adopts_match
    (isValid : JSON -> JSON -> bool) (this : Component) (nextProps : Props)
    (this' : Component) :
  componentWillReceiveProps isValid this nextProps = Normal this' ->
  exists m,
    getMatchingOption isValid (formData nextProps) (options nextProps)
                      (definitions nextProps) = Normal m /\
    this' = mkComponent nextProps (Z.of_nat m).
Proof.
  unfold componentWillReceiveProps.
  destruct (getMatchingOption _ _ _ _) as [m|]; simpl; [|discriminate].
  intros H. exists m. split; [done|].
  destruct (Z.eqb_spec (Z.of_nat m) (selectedOption this)) as [Heq|Hne];
    injection H as <-; [by rewrite Heq|done].
Qed.

(** Whatever was selected, an update that no branch matches selects
    [0]. *)
Lemma componentWillReceiveProps_no_match
    (isValid : JSON -> JSON -> bool) (this : Component) (nextProps : Props) :
  forallb allOfWellFormed (options nextProps) = true ->
  (forall i, ~ matchesAt isValid (formData nextProps) (options nextProps)
                         (definitions nextProps) i) ->
  componentWillReceiveProps isValid this nextProps
  = Normal (mkComponent nextProps 0).
Proof.
  intros Hwf Hnone.
  destruct (MatchingFacts.getMatchingOption_from_returns
              isValid (formData nextProps) (definitions nextProps)
              (options nextProps) 0 Hwf) as [r Hr].
  assert (r = 0%nat) as ->.
  { destruct (MatchingFacts.getMatchingOption_from_spec _ _ _ _ _ _ Hr)
      as [(k & option & -> & Hk & Hm & _)|[-> _]]; [|done].
    destruct (Hnone k). by exists option. }
  unfold componentWillReceiveProps, getMatchingOption. rewrite Hr.
  cbn [JS.bind isNull orb]. change (Z.of_nat 0) with 0.
  destruct (Z.eqb_spec 0 (selectedOption this)) as [<-|Hne]; reflexivity.
Qed.

(** C2, evaluated on the scenario of the specification: the union of the
    object branches [{a}] and [{b}], mounted with the data [{}]. The user
    selects branch [1], which emits [{}]; the owner then hands the emitted
    [{}] back as form data, no branch validates it, and the selection is
    reset from [1] to [0]. *)
Theorem no_match_update_resets_selection :
  exists this1 emitted this2 this3,
    constructor Sample.isValid (mkProps (JObj []) Sample.branchesAB (JObj []))
      = Normal this1 /\
    onOptionChange Sample.computeDefaults this1 (JNum 1)
      = Normal (emitted, this2) /\
    selectedOption this2 = 1 /\
    (forall i, ~ matchesAt Sample.isValid emitted Sample.branchesAB (JObj []) i) /\
    componentWillReceiveProps Sample.isValid this2
      (mkProps emitted Sample.branchesAB (JObj [])) = Normal this3 /\
    selectedOption this3 = 0.
Proof.
  eexists _, _, _, _.
  split; [vm_compute; reflexivity|].
  split; [vm_compute; reflexivity|].
  split; [reflexivity|].
  split; [|split; [vm_compute; reflexivity|reflexivity]].
  intros [|[|i]] (option & Hi & Hm); simpl in Hi; try discriminate;
    injection Hi as <-; vm_compute in Hm; discriminate.
Qed.

(** C7, as stated, fails for the empty branch list: the constructor
    selects [0], which is no index of an empty list. *)
Lemma empty_union_selection_out_of_range :
  exists this,
    reachable Sample.isValid Sample.computeDefaults this /\
    options (props this) = [] /\
    ~ (0 <= selectedOption this
       < Z.of_nat (List.length (options (props this)))).
Proof.
  exists (mkComponent (mkProps JUndefined [] (JObj [])) 0).
  split; [|split].
  - by apply (reachable_constructor _ _ (mkProps JUndefined [] (JObj []))).
  - reflexivity.
  - simpl. lia.
Qed.

(** C7, amended: in every reachable state of the component (after the
    constructor, after every update of the props, after every completed
    option change) whose current branch list is not empty,
    [0 <= selectedOption < options.length]; when the branch list is empty,
    [selectedOption] is [0]. *)
Theorem selectedOption_in_range
    (isValid : JSON -> JSON -> bool)
    (computeDefaults : JSON -> JSON -> JSON -> JSON) (this : Component) :
  reachable isValid computeDefaults this ->
  (options (props this) <> [] ->
   0 <= selectedOption this < Z.of_nat (List.length (options (props this)))) /\
  (options (props this) = [] -> selectedOption this = 0).
Proof.
  assert (forall formData options definitions m,
             getMatchingOption isValid formData options definitions = Normal m ->
             (options <> [] -> (m < List.length options)%nat) /\
             (options = [] -> m = 0%nat)) as Hmatch.
  { intros formData options definitions m Hm.
    destruct (MatchingFacts.getMatchingOption_from_spec
                isValid formData definitions options 0 m Hm)
      as [(k & option & -> & Hk & _)|[-> _]].
    - apply lookup_lt_Some in Hk. split; [simpl; lia|].
      intros ->. simpl in Hk. lia.
    - split; [|done]. destruct options; [done|simpl; lia]. }
  destruct 1 as [p this Hc|this nextProps this' _ Hr
                 |this option emitted this' p' _ Hc [_ Hlen]].
  - unfold constructor in Hc.
    destruct (getMatchingOption _ _ _ _) as [m|] eqn:Hm; [|discriminate].
    injection Hc as <-. simpl.
    destruct (Hmatch _ _ _ _ Hm) as [Hlt H0]. split; intros H.
    + specialize (Hlt H). lia.
    + by rewrite (H0 H).
  - apply componentWillReceiveProps_adopts_match in Hr as (m & Hm & ->). simpl.
    destruct (Hmatch _ _ _ _ Hm) as [Hlt H0]. split; intros H.
    + specialize (Hlt H). lia.
    + by rewrite (H0 H).
  - apply SwitchingFacts.onOptionChange_inv in Hc as (j & branch & _ & Hj & ->).
    simpl in *. apply SwitchingFacts.array_get_lt in Hj as Hlt.
    rewrite Hlen. split; [done|].
    intros Hnil. rewrite Hnil in Hlen. simpl in Hlen. lia.
Qed.

Lemma selectedOption_in_range_witness :
  reachable Sample.isValid Sample.computeDefaults
    (mkComponent (mkProps (JObj [("b", JNum 2)]) Sample.branchesAB (JObj [])) 1) /\
  (Sample.branchesAB <> [] ->
   0 <= 1 < Z.of_nat (List.length Sample.branchesAB)) /\
  (Sample.branchesAB = [] -> 1 = 0).
Proof.
  assert (reachable Sample.isValid Sample.computeDefaults
            (mkComponent
               (mkProps (JObj [("b", JNum 2)]) Sample.branchesAB (JObj [])) 1))
    as Hreach.
  { by apply (reachable_constructor _ _
                (mkProps (JObj [("b", JNum 2)]) Sample.branchesAB (JObj []))). }
  split; [exact Hreach|].
  exact (selectedOption_in_range Sample.isValid Sample.computeDefaults _ Hreach).
Defined.

(* ===================================================================== *)
(** ** Properties of switching *)
(* ===================================================================== *)

(** C5: for every switch to an index of the branch list whose branch
    (after resolution of its [$ref], if any) is not object-typed, or with
    current form data that is not an object, the emitted data is
    [undefined]. *)
Theorem onOptionChange_emits_undefined
    (computeDefaults : JSON -> JSON -> JSON -> JSON) (this : Component)
    (option : JSON) (j : Z) (newOption : JSON) :
  parseInt option = Some j ->
  newOptionOf (options (props this)) (definitions (props this)) j
    = Normal newOption ->
  guessType (formData (props this)) <> "object" \/
  (nullish newOption = false /\ objectTyped newOption = false) ->
  onOptionChange computeDefaults this option =
  Normal (JUndefined, mkComponent (props this) j).
Proof.
  intros Hparse Hnew Hcases.
  unfold onOptionChange. rewrite Hparse, Hnew. simpl.
  unfold discardsOldProperties.
  destruct (String.eqb_spec (guessType (formData (props this))) "object")
    as [Hobj|Hnot]; [|reflexivity].
  destruct Hcases as [Hdata|[Hnull Htyped]]; [done|].
  destruct newOption as [| | | | | |schema]; try discriminate; try reflexivity.
  simpl in *. apply orb_false_iff in Htyped as [-> ->]. reflexivity.
Qed.

(** The instance of C5 in the specification: a switch to the branch
    [{type: "string"}] from data that is an object. *)
Lemma onOptionChange_emits_undefined_witness :
  let this :=
    mkComponent
      (mkProps (JObj [("a", JStr "x")])
               [Sample.branchA; [("type", JStr "string")]] (JObj [])) 0 in
  parseInt (JNum 1) = Some 1 /\
  newOptionOf (options (props this)) (definitions (props this)) 1
    = Normal (JObj [("type", JStr "string")]) /\
  (guessType (formData (props this)) <> "object" \/
   (nullish (JObj [("type", JStr "string")]) = false /\
    objectTyped (JObj [("type", JStr "string")]) = false)) /\
  onOptionChange Sample.computeDefaults this (JNum 1) =
  Normal (JUndefined, mkComponent (props this) 1).
Proof.
  intros this.
  split; [reflexivity|]. split; [reflexivity|].
  split; [right; split; reflexivity|].
  apply (onOptionChange_emits_undefined
           Sample.computeDefaults this (JNum 1) 1
           (JObj [("type", JStr "string")])); [reflexivity|reflexivity|].
  right. split; reflexivity.
Defined.

(* ===================================================================== *)
(** ** Properties of [$ref] branches *)
(* ===================================================================== *)

Lemma strip_prefix_app (p s : string) : strip_prefix p (p ++ s) = Some s.
Proof.
  induction p as [|a p IH]; simpl; [by destruct s|].
  by rewrite Ascii.eqb_refl.
Qed.

(** Whatever [getMatchingOption] throws is a [TypeError]. *)
Lemma getMatchingOption_from_throws (isValid : JSON -> JSON -> bool)
    (formData definitions : JSON) (rest : list Obj) (i : nat) (e : Error) :
  getMatchingOption_from isValid formData definitions i rest = Throw e ->
  e = TypeError.
Proof.
  revert i. induction rest as [|option rest IH]; intros i; simpl;
    [discriminate|].
  destruct (matchSchema definitions option) as [schema|e'] eqn:Hschema; simpl.
  - destruct (isValid (JObj schema) formData); [discriminate|apply IH].
  - intros [= <-]. eapply MatchingFacts.matchSchema_throws, Hschema.
Qed.

(** C6, as stated, fails for matching: with the only branch a pointer to
    [Foo] and no entry [Foo] in the definitions table, the resolver raises
    the reference error, yet [getMatchingOption] raises nothing and returns
    the fallback index. *)
Lemma matching_returns_on_missing_definition :
  findSchemaDefinition (get Sample.refFoo "$ref") (JObj [])
    = Throw SchemaReferenceError /\
  getMatchingOption Sample.isValid (JStr "x") [Sample.refFoo] (JObj [])
    <> Throw SchemaReferenceError /\
  getMatchingOption Sample.isValid (JStr "x") [Sample.refFoo] (JObj [])
    = Normal 0%nat.
Proof.
  split; [reflexivity|]. split; [|reflexivity].
  vm_compute. discriminate.
Qed.

(** C6, amended: for every branch that consists purely of a [$ref]
    pointer, switching resolves it through the definitions table before it
    uses the branch, and raises the reference error when the entry is
    absent; matching does not resolve it: the schema it hands to the
    validator is the branch with its [$ref], together with the definitions
    table, and matching raises no reference error. *)
Theorem ref_branch_resolution
    (isValid : JSON -> JSON -> bool)
    (computeDefaults : JSON -> JSON -> JSON -> JSON) (this : Component)
    (option : JSON) (j : nat) (ref : string) :
  parseInt option = Some (Z.of_nat j) ->
  options (props this) !! j = Some [("$ref", JStr ref)] ->
  newOptionOf (options (props this)) (definitions (props this)) (Z.of_nat j)
    = findSchemaDefinition (JStr ref) (definitions (props this)) /\
  (forall name defs,
      ref = (definitions_prefix ++ name)%string ->
      definitions (props this) = JObj defs ->
      props_lookup defs name = None ->
      onOptionChange computeDefaults this option = Throw SchemaReferenceError) /\
  matchSchema (definitions (props this)) [("$ref", JStr ref)]
    = Normal [("$ref", JStr ref); ("definitions", definitions (props this))] /\
  (forall formData e,
      getMatchingOption isValid formData (options (props this))
                        (definitions (props this)) = Throw e ->
      e = TypeError).
Proof.
  intros Hparse Hj.
  assert (newOptionOf (options (props this)) (definitions (props this))
                      (Z.of_nat j)
          = findSchemaDefinition (JStr ref) (definitions (props this)))
    as Hnew.
  { unfold newOptionOf.
    assert (array_get (options (props this)) (Z.of_nat j)
            = Some [("$ref", JStr ref)]) as ->; [|reflexivity].
    apply SwitchingFacts.array_get_Some. rewrite Nat2Z.id. split; [lia|done]. }
  split; [exact Hnew|]. split; [|split].
  - intros name defs -> Hdefs Hname.
    unfold onOptionChange. rewrite Hparse, Hnew, Hdefs.
    unfold findSchemaDefinition. by rewrite strip_prefix_app, Hname.
  - reflexivity.
  - intros formData e. apply getMatchingOption_from_throws.
Qed.

Lemma ref_branch_resolution_witness :
  let this := mkComponent (mkProps (JStr "x") [Sample.refFoo] (JObj [])) 0 in
  parseInt (JNum 0) = Some (Z.of_nat 0) /\
  options (props this) !! 0%nat = Some [("$ref", JStr "#/definitions/Foo")] /\
  newOptionOf (options (props this)) (definitions (props this)) (Z.of_nat 0)
    = findSchemaDefinition (JStr "#/definitions/Foo") (definitions (props this)) /\
  (forall name defs,
      "#/definitions/Foo" = (definitions_prefix ++ name)%string ->
      definitions (props this) = JObj defs ->
      props_lookup defs name = None ->
      onOptionChange Sample.computeDefaults this (JNum 0)
        = Throw SchemaReferenceError) /\
  matchSchema (definitions (props this)) [("$ref", JStr "#/definitions/Foo")]
    = Normal [("$ref", JStr "#/definitions/Foo");
              ("definitions", definitions (props this))] /\
  (forall formData e,
      getMatchingOption Sample.isValid formData (options (props this))
                        (definitions (props this)) = Throw e ->
      e = TypeError).
Proof.
  intros this. split; [reflexivity|]. split; [reflexivity|].
  apply (ref_branch_resolution Sample.isValid Sample.computeDefaults this
           (JNum 0) 0 "#/definitions/Foo"); reflexivity.
Defined.

(* ===================================================================== *)
(** ** Properties of matching as a computation on the store *)
(* ===================================================================== *)

(** C8: for every branch list, form data and definitions table, in every
    store and with every validator, [getMatchingOption] leaves every object
    and every array that existed before the call as it was (the branch
    schemas, their nested collections, their [required] and [allOf]
    included): the store after the call is the store before it followed by
    newly created cells, so every value stands for the same JSON value
    as before. *)
Theorem getMatchingOption_preserves_store
    (isValid : list Store.cell -> Store.value -> Store.value -> bool)
    (formData options definitions : Store.value) (st : list Store.cell) :
  let st' :=
    (Store.getMatchingOption isValid formData options definitions st).2 in
  (exists new, st' = (st ++ new)%list) /\
  (forall l c, st !! l = Some c -> st' !! l = Some c) /\
  (forall depth v j,
      Store.reify depth st v = Some j -> Store.reify depth st' v = Some j).
Proof.
  intros st'.
  destruct (StoreFacts.keeps_getMatchingOption
              (List.length st) isValid formData options definitions st
              (Nat.le_refl _)) as [Hpres _].
  fold st' in Hpres. split; [|split].
  - by apply StoreFacts.preserves_all_app.
  - intros l c Hl. destruct Hpres as [_ ->]; [done|]. by eapply lookup_lt_Some.
  - intros depth v j. by apply ReifyFacts.reify_stable.
Qed.

(** A run on an option with [anyOf], [allOf] and [required]: the clone at
    [14] shares [properties] and [anyOf] with the option at [7], has a new
    [allOf] array at [15] with the augmentation appended, and no
    [required]; the option and its [allOf] at [5] are as before. *)
Example anyOf_option_is_cloned :
  Store.getMatchingOption (Store.liftValidator Sample.isValid 12)
    (Store.VRef 0) (Store.VRef 8) (Store.VRef 9) SampleStore.store3
  = (Store.Returned 0%nat,
     (SampleStore.store3 ++
      [ Store.CArray [Store.VStr "x"];
        Store.CObject [("required", Store.VRef 10)];
        Store.CArray [Store.VRef 11];
        Store.CObject [("anyOf", Store.VRef 12)];
        Store.CObject [("properties", Store.VRef 2); ("anyOf", Store.VRef 4);
                       ("allOf", Store.VRef 15)];
        Store.CArray [Store.VRef 3; Store.VRef 13] ])%list).
Proof. vm_compute. reflexivity. Qed.

(** C9: any two calls of [getMatchingOption] whose form data, branch list
    and definitions table stand for the same JSON values return the same
    index (or throw the same error), whatever else the two stores hold and
    wherever the values lie in them; the outcome is the one of
    [getMatchingOption] on these JSON values; and a second call on the same
    arguments, in the store that the first call leaves, returns what the
    first returned. *)
Theorem getMatchingOption_deterministic
    (isValid : JSON -> JSON -> bool) (depth vdepth : nat)
    (st1 st2 : list Store.cell)
    (formData1 options1 definitions1 : Store.value)
    (formData2 options2 definitions2 : Store.value)
    (jfd : JSON) (opts : list Obj) (jdefs : JSON) :
  (depth + 6 <= vdepth)%nat ->
  Store.reify depth st1 formData1 = Some jfd ->
  Store.reify depth st1 options1 = Some (JArr (List.map JObj opts)) ->
  Store.reify depth st1 definitions1 = Some jdefs ->
  Store.reify depth st2 formData2 = Some jfd ->
  Store.reify depth st2 options2 = Some (JArr (List.map JObj opts)) ->
  Store.reify depth st2 definitions2 = Some jdefs ->
  let run1 :=
    Store.getMatchingOption (Store.liftValidator isValid vdepth)
      formData1 options1 definitions1 st1 in
  let run2 :=
    Store.getMatchingOption (Store.liftValidator isValid vdepth)
      formData2 options2 definitions2 st2 in
  run1.1 = run2.1 /\
  run1.1 = Store.outcome_of (getMatchingOption isValid jfd opts jdefs) /\
  (Store.getMatchingOption (Store.liftValidator isValid vdepth)
     formData1 options1 definitions1 run1.2).1 = run1.1.
Proof.
  intros Hdepth Hfd1 Hopts1 Hdefs1 Hfd2 Hopts2 Hdefs2 run1 run2.
  assert (run1.1 = Store.outcome_of (getMatchingOption isValid jfd opts jdefs))
    as H1 by (by eapply Refinement.getMatchingOption_run).
  assert (run2.1 = Store.outcome_of (getMatchingOption isValid jfd opts jdefs))
    as H2 by (by eapply Refinement.getMatchingOption_run).
  split; [congruence|]. split; [exact H1|].
  rewrite H1.
  destruct (StoreFacts.keeps_getMatchingOption
              (List.length st1) (Store.liftValidator isValid vdepth)
              formData1 options1 definitions1 st1 (Nat.le_refl _))
    as [Hpres _].
  fold run1 in Hpres.
  eapply Refinement.getMatchingOption_run; [exact Hdepth| | |];
    (eapply ReifyFacts.reify_stable; [apply Nat.le_refl|exact Hpres|]);
    eassumption.
Qed.

Lemma getMatchingOption_deterministic_witness :
  let run1 :=
    Store.getMatchingOption (Store.liftValidator Sample.isValid 10)
      (Store.VRef 0) (Store.VRef 7) (Store.VRef 8) SampleStore.store1 in
  let run2 :=
    Store.getMatchingOption (Store.liftValidator Sample.isValid 10)
      (Store.VRef 9) (Store.VRef 1) (Store.VRef 0) SampleStore.store2 in
  (4 + 6 <= 10)%nat /\
  Store.reify 4 SampleStore.store1 (Store.VRef 0) = Some (JObj [("b", JNum 2)]) /\
  Store.reify 4 SampleStore.store1 (Store.VRef 7)
    = Some (JArr (List.map JObj Sample.branchesAB)) /\
  Store.reify 4 SampleStore.store1 (Store.VRef 8) = Some (JObj []) /\
  Store.reify 4 SampleStore.store2 (Store.VRef 9) = Some (JObj [("b", JNum 2)]) /\
  Store.reify 4 SampleStore.store2 (Store.VRef 1)
    = Some (JArr (List.map JObj Sample.branchesAB)) /\
  Store.reify 4 SampleStore.store2 (Store.VRef 0) = Some (JObj []) /\
  run1.1 = run2.1 /\
  run1.1 = Store.outcome_of
             (getMatchingOption Sample.isValid (JObj [("b", JNum 2)])
                                Sample.branchesAB (JObj [])) /\
  (Store.getMatchingOption (Store.liftValidator Sample.isValid 10)
     (Store.VRef 0) (Store.VRef 7) (Store.VRef 8) run1.2).1 = run1.1.
Proof.
  intros run1 run2.
  split; [lia|]. repeat (split; [reflexivity|]).
  apply (getMatchingOption_deterministic Sample.isValid 4 10
           SampleStore.store1 SampleStore.store2
           (Store.VRef 0) (Store.VRef 7) (Store.VRef 8)
           (Store.VRef 9) (Store.VRef 1) (Store.VRef 0)
           (JObj [("b", JNum 2)]) Sample.branchesAB (JObj []));
    [lia|reflexivity..].
Defined.

(* ===================================================================== *)
(** ** Further properties of matching *)
(* ===================================================================== *)

Section MoreMatching.
Variable isValid : JSON -> JSON -> bool.
Implicit Types (formData definitions : JSON) (options rest : list Obj).

(** X1: after [componentWillReceiveProps] the component is what the
    constructor builds from the new props, whatever was selected before:
    same selection, and the same error when matching throws. *)
Theorem componentWillReceiveProps_as_constructed
    (this : Component) (nextProps : Props) :
  componentWillReceiveProps isValid this nextProps
  = constructor isValid nextProps.
Proof.
  unfold componentWillReceiveProps, constructor.
  destruct (getMatchingOption isValid _ _ _) as [m|e]; [|reflexivity].
  cbn [JS.bind isNull orb].
  destruct (Z.eqb_spec (Z.of_nat m) (selectedOption this)) as [<-|_];
    reflexivity.
Qed.

Lemma getMatchingOption_from_app_match formData definitions rest more i k :
  (exists option, rest !! k = Some option /\
                  optionMatches isValid formData definitions option = true) ->
  getMatchingOption_from isValid formData definitions i (rest ++ more)
  = getMatchingOption_from isValid formData definitions i rest.
Proof.
  revert i k. induction rest as [|option rest IH]; intros i k (o & Hk & Hm).
  - by rewrite lookup_nil in Hk.
  - simpl. destruct (matchSchema definitions option) as [schema|e] eqn:Hs;
      [|reflexivity].
    cbn [JS.bind]. destruct (isValid (JObj schema) formData) eqn:Hv;
      [reflexivity|].
    destruct k as [|k]; simpl in Hk.
    + injection Hk as <-. unfold optionMatches in Hm. rewrite Hs in Hm.
      congruence.
    + apply (IH (S i) k). eauto.
Qed.

(** X2: branches that are appended after a branch that matches do not
    change the result. *)
Theorem getMatchingOption_app_match formData options more definitions k :
  matchesAt isValid formData options definitions k ->
  getMatchingOption isValid formData (options ++ more) definitions
  = getMatchingOption isValid formData options definitions.
Proof.
  intros Hk. unfold getMatchingOption.
  by eapply getMatchingOption_from_app_match.
Qed.

Lemma getMatchingOption_from_skip formData definitions pre rest i :
  forallb allOfWellFormed pre = true ->
  (forall option, In option pre ->
                  optionMatches isValid formData definitions option = false) ->
  getMatchingOption_from isValid formData definitions i (pre ++ rest)
  = getMatchingOption_from isValid formData definitions
      (i + List.length pre) rest.
Proof.
  revert i. induction pre as [|option pre IH]; intros i Hwf Hnone; simpl.
  - by rewrite Nat.add_0_r.
  - apply andb_prop in Hwf as [Hwf Hwfs].
    destruct (MatchingFacts.matchSchema_wellFormed definitions option Hwf)
      as [schema Hs].
    pose proof (Hnone option (or_introl eq_refl)) as Hm.
    unfold optionMatches in Hm. rewrite Hs in Hm. rewrite Hs.
    cbn [JS.bind]. rewrite Hm.
    rewrite IH; [|done|intros; apply Hnone; by right].
    f_equal. lia.
Qed.

Lemma getMatchingOption_from_shift formData definitions rest i n r :
  getMatchingOption_from isValid formData definitions i rest = Normal r ->
  (exists k option, rest !! k = Some option /\
                    optionMatches isValid formData definitions option = true) ->
  getMatchingOption_from isValid formData definitions (i + n) rest
  = Normal (r + n)%nat.
Proof.
  revert i. induction rest as [|o rest IH]; intros i Hr (k & option & Hk & Hm).
  - by rewrite lookup_nil in Hk.
  - simpl in *. destruct (matchSchema definitions o) as [schema|e] eqn:Hs;
      [|discriminate].
    cbn [JS.bind] in *. destruct (isValid (JObj schema) formData) eqn:Hv.
    + by injection Hr as <-.
    + destruct k as [|k]; simpl in Hk.
      * injection Hk as <-. unfold optionMatches in Hm. rewrite Hs in Hm.
        congruence.
      * apply (IH (S i)); eauto.
Qed.

(** X3: well-formed branches that do not match, put in front of a list
    whose branch [r] is the one selected, shift the result by their
    number. *)
Theorem getMatchingOption_app_skip formData pre options definitions r :
  forallb allOfWellFormed pre = true ->
  (forall option, In option pre ->
                  optionMatches isValid formData definitions option = false) ->
  getMatchingOption isValid formData options definitions = Normal r ->
  matchesAt isValid formData options definitions r ->
  getMatchingOption isValid formData (pre ++ options) definitions
  = Normal (r + List.length pre)%nat.
Proof.
  intros Hwf Hnone Hr Hmatch. unfold getMatchingOption in *.
  rewrite getMatchingOption_from_skip by done.
  apply getMatchingOption_from_shift; [exact Hr|].
  destruct Hmatch as (option & Hk & Hm). eauto.
Qed.

End MoreMatching.

Lemma getMatchingOption_app_match_witness :
  matchesAt Sample.isValid (JObj [("a", JStr "x")]) [Sample.branchA] (JObj []) 0 /\
  getMatchingOption Sample.isValid (JObj [("a", JStr "x")])
    ([Sample.branchA] ++ [Sample.branchB; Sample.refFoo]) (JObj [])
  = getMatchingOption Sample.isValid (JObj [("a", JStr "x")])
      [Sample.branchA] (JObj []).
Proof.
  assert (matchesAt Sample.isValid (JObj [("a", JStr "x")])
            [Sample.branchA] (JObj []) 0) as Hmatch
    by (exists Sample.branchA; split; reflexivity).
  split; [exact Hmatch|].
  exact (getMatchingOption_app_match Sample.isValid _ _ _ _ _ Hmatch).
Defined.

Lemma getMatchingOption_app_skip_witness :
  forallb allOfWellFormed [Sample.refFoo; Sample.branchA] = true /\
  (forall option, In option [Sample.refFoo; Sample.branchA] ->
     optionMatches Sample.isValid (JObj [("b", JNum 2)]) (JObj []) option
     = false) /\
  getMatchingOption Sample.isValid (JObj [("b", JNum 2)])
    [Sample.branchB] (JObj []) = Normal 0%nat /\
  matchesAt Sample.isValid (JObj [("b", JNum 2)]) [Sample.branchB] (JObj []) 0 /\
  getMatchingOption Sample.isValid (JObj [("b", JNum 2)])
    ([Sample.refFoo; Sample.branchA] ++ [Sample.branchB]) (JObj [])
  = Normal (0 + List.length [Sample.refFoo; Sample.branchA])%nat.
Proof.
  assert (forall option, In option [Sample.refFoo; Sample.branchA] ->
            optionMatches Sample.isValid (JObj [("b", JNum 2)]) (JObj []) option
            = false) as Hnone.
  { intros option [<-|[<-|[]]]; reflexivity. }
  assert (matchesAt Sample.isValid (JObj [("b", JNum 2)])
            [Sample.branchB] (JObj []) 0) as Hmatch
    by (exists Sample.branchB; split; reflexivity).
  split; [reflexivity|]. split; [exact Hnone|]. split; [reflexivity|].
  split; [exact Hmatch|].
  exact (getMatchingOption_app_skip Sample.isValid (JObj [("b", JNum 2)])
           [Sample.refFoo; Sample.branchA] [Sample.branchB] (JObj []) 0
           eq_refl Hnone eq_refl Hmatch).
Defined.

(* ===================================================================== *)
(** ** When matching throws *)
(* ===================================================================== *)

Import Render.

Lemma wrapInAllOf_illFormed (option : Obj) :
  allOfWellFormed option = false -> wrapInAllOf option = Throw TypeError.
Proof.
  unfold allOfWellFormed, wrapInAllOf. rewrite PropsFacts.get_spread.
  destruct (get option "allOf") as [| |b|n|s|l|o] eqn:Hall; simpl;
    try discriminate.
  - by destruct b.
  - by destruct (n =? 0).
  - by destruct (String.eqb s "").
  - reflexivity.
Qed.

Lemma matchSchema_throws_iff (definitions : JSON) (option : Obj) (e : Error) :
  matchSchema definitions option = Throw e <->
  e = TypeError /\ augmentationThrows option = true.
Proof.
  unfold augmentationThrows. split.
  - intros Hthrow. split; [by eapply MatchingFacts.matchSchema_throws|].
    revert Hthrow. unfold matchSchema, augmentedSchema.
    destruct (truthy (get option "properties")); [|discriminate].
    destruct (truthy (get option "anyOf")); [|discriminate].
    destruct (allOfWellFormed option) eqn:Hwf; [|reflexivity].
    destruct (MatchingFacts.wrapInAllOf_wellFormed option Hwf) as [s ->].
    discriminate.
  - intros [-> [[Hp Ha]%andb_prop Hwf%negb_true_iff]%andb_prop].
    unfold matchSchema, augmentedSchema. rewrite Hp, Ha.
    by rewrite (wrapInAllOf_illFormed option Hwf).
Qed.

(** X4: [getMatchingOption] throws exactly when some branch has
    [properties], [anyOf] and a truthy [allOf] that is no array, and no
    branch before it validates; what it throws is a [TypeError]. *)
Theorem getMatchingOption_throws_iff
    (isValid : JSON -> JSON -> bool) (formData : JSON) (options : list Obj)
    (definitions : JSON) (e : Error) :
  getMatchingOption isValid formData options definitions = Throw e <->
  e = TypeError /\
  exists i option,
    options !! i = Some option /\
    augmentationThrows option = true /\
    forall j, (j < i)%nat -> ~ matchesAt isValid formData options definitions j.
Proof.
  unfold getMatchingOption, matchesAt. generalize 0%nat as start.
  induction options as [|o options IH]; intros start; simpl.
  - split; [discriminate|]. intros [_ (i & option & Hi & _)].
    by rewrite lookup_nil in Hi.
  - destruct (matchSchema definitions o) as [schema|e'] eqn:Hs; cbn [JS.bind].
    + assert (augmentationThrows o = false) as Ho.
      { destruct (augmentationThrows o) eqn:Ht; [|done].
        pose proof (proj2 (matchSchema_throws_iff definitions o TypeError)
                      (conj eq_refl Ht)). congruence. }
      destruct (isValid (JObj schema) formData) eqn:Hv.
      * split; [discriminate|].
        intros [_ (i & option & Hi & Ht & Hbefore)]. exfalso.
        destruct i as [|i]; simpl in Hi; [congruence|].
        apply (Hbefore 0%nat); [lia|]. exists o. split; [done|].
        unfold optionMatches. by rewrite Hs.
      * rewrite IH. split.
        -- intros [-> (i & option & Hi & Ht & Hbefore)]. split; [done|].
           exists (S i), option. split; [done|]. split; [done|].
           intros [|j] Hj (o' & Hj' & Hm); simpl in Hj'.
           ++ injection Hj' as <-. unfold optionMatches in Hm.
              rewrite Hs in Hm. congruence.
           ++ apply (Hbefore j); [lia|eauto].
        -- intros [-> (i & option & Hi & Ht & Hbefore)]. split; [done|].
           destruct i as [|i]; simpl in Hi; [congruence|].
           exists i, option. split; [done|]. split; [done|].
           intros j Hj (o' & Hj' & Hm). apply (Hbefore (S j)); [lia|eauto].
    + apply matchSchema_throws_iff in Hs as [-> Ht]. split.
      * intros [= <-]. split; [done|]. exists 0%nat, o.
        split; [done|]. split; [done|]. intros j Hj. lia.
      * by intros [-> _].
Qed.

Lemma getMatchingOption_throws_iff_witness :
  let option : Obj :=
    [("properties", JObj [("a", JObj [])]); ("anyOf", JArr []);
     ("allOf", JStr "x")] in
  getMatchingOption Sample.isValid (JObj []) [Sample.branchA; option] (JObj [])
  = Throw TypeError.
Proof.
  intros option.
  apply (getMatchingOption_throws_iff Sample.isValid (JObj [])
           [Sample.branchA; option] (JObj []) TypeError).
  split; [reflexivity|]. exists 1%nat, option.
  split; [reflexivity|]. split; [reflexivity|].
  intros [|j] Hj (o & Ho & Hm); [|lia].
  injection Ho as <-. vm_compute in Hm. discriminate.
Defined.

(* ===================================================================== *)
(** ** The schema that is handed to the validator *)
(* ===================================================================== *)

Lemma requiresAnyOf_lookup (option : Obj) (k : string) :
  props_lookup (requiresAnyOf option) k =
  if String.eqb "anyOf" k
  then Some (JArr (List.map
                     (fun key => JObj [("required", JArr [JStr key])])
                     (enumerable_keys (get option "properties"))))
  else None.
Proof.
  unfold requiresAnyOf. cbn [props_lookup find fst snd option_map].
  by destruct (String.eqb "anyOf" k).
Qed.

Lemma wrapInAllOf_lookup (option schema : Obj) (k : string) :
  wrapInAllOf option = Normal schema ->
  props_lookup schema k =
  if String.eqb "allOf" k
  then Some (JArr (allOfItems option ++ [JObj (requiresAnyOf option)]))
  else props_lookup option k.
Proof.
  unfold wrapInAllOf, allOfItems. rewrite PropsFacts.get_spread.
  remember (String.eqb "allOf" k) as e eqn:He.
  destruct (get option "allOf") as [| |b|n|s|l|o] eqn:Hall; simpl;
    try destruct b; try destruct (n =? 0); try destruct (String.eqb s "");
    simpl; rewrite ?PropsFacts.get_set; simpl; try discriminate;
    intros [= <-];
    rewrite !PropsFacts.props_lookup_set, PropsFacts.props_lookup_spread,
      <- He; by destruct e.
Qed.

(** Every keyword of the schema that [getMatchingOption] validates for
    [option], read off the option and the definitions table. *)
Lemma matchSchema_lookup (definitions : JSON) (option schema : Obj)
    (k : string) :
  matchSchema definitions option = Normal schema ->
  props_lookup schema k =
  if truthy (get option "properties") then
    if String.eqb "required" k then None
    else if truthy (get option "anyOf") then
      if String.eqb "allOf" k
      then Some (JArr (allOfItems option ++ [JObj (requiresAnyOf option)]))
      else props_lookup option k
    else if String.eqb "__proto__" k then None
    else
      match props_lookup (requiresAnyOf option) k with
      | Some v => Some v
      | None =>
          match props_lookup option k with
          | Some v => Some v
          | None => if String.eqb "definitions" k then Some definitions
                    else None
          end
      end
  else if String.eqb "definitions" k then Some definitions
       else props_lookup option k.
Proof.
  unfold matchSchema, augmentedSchema.
  destruct (truthy (get option "properties")).
  - destruct (truthy (get option "anyOf")).
    + destruct (wrapInAllOf option) as [s0|] eqn:Hwrap; cbn [JS.bind];
        [|discriminate].
      intros [= <-]. rewrite PropsFacts.props_lookup_delete.
      destruct (String.eqb "required" k); [done|].
      by apply wrapInAllOf_lookup.
    + cbn [JS.bind]. intros [= <-]. rewrite PropsFacts.props_lookup_delete.
      destruct (String.eqb "required" k); [done|].
      rewrite !PropsFacts.props_lookup_assign.
      destruct (String.eqb_spec "__proto__" k) as [<-|_]; [reflexivity|].
      destruct (props_lookup (requiresAnyOf option) k); [done|].
      destruct (props_lookup option k); [done|].
      cbn [props_lookup find fst snd option_map].
      by destruct (String.eqb "definitions" k).
  - intros [= <-].
    by rewrite PropsFacts.props_lookup_set, PropsFacts.props_lookup_spread.
Qed.

(** X5: the schema that is validated for a branch with [properties] never
    has a [required] keyword; for a branch without [properties] it has the
    [required] of the branch. *)
Theorem matchSchema_required (definitions : JSON) (option schema : Obj) :
  matchSchema definitions option = Normal schema ->
  (truthy (get option "properties") = true ->
   props_has schema "required" = false) /\
  (truthy (get option "properties") = false ->
   props_lookup schema "required" = props_lookup option "required").
Proof.
  intros Hs. pose proof (matchSchema_lookup _ _ _ "required" Hs) as H.
  change (String.eqb "required" "required") with true in H.
  change (String.eqb "definitions" "required") with false in H.
  split; intros Hp; rewrite Hp in H.
  - by apply PropsFacts.props_has_false.
  - exact H.
Qed.

(** X6: apart from [anyOf], [allOf], [required] and [definitions], the
    schema that is validated has exactly the own keywords of the branch,
    with the values of the branch, but for one: where the schema is built
    with [Object.assign], an own [__proto__] of the branch is no own
    property of the schema. *)
Theorem matchSchema_keeps_keywords (definitions : JSON) (option schema : Obj)
    (k : string) :
  matchSchema definitions option = Normal schema ->
  ~ In k augmentationKeywords ->
  props_lookup schema k =
  if String.eqb "__proto__" k && builtByAssign option then None
  else props_lookup option k.
Proof.
  intros Hs Hk. rewrite (matchSchema_lookup _ _ _ k Hs).
  assert (String.eqb "anyOf" k = false /\ String.eqb "allOf" k = false /\
          String.eqb "required" k = false /\
          String.eqb "definitions" k = false) as (Ha & Hl & Hr & Hd).
  { repeat split; apply String.eqb_neq; intros <-; apply Hk; simpl; tauto. }
  rewrite requiresAnyOf_lookup, Hr, Hl, Hd, Ha. unfold builtByAssign.
  destruct (truthy (get option "properties"));
    [|by rewrite andb_false_r].
  destruct (truthy (get option "anyOf")); [by rewrite andb_false_r|].
  destruct (String.eqb "__proto__" k); [done|].
  by destruct (props_lookup option k).
Qed.

Lemma matchSchema_keeps_keywords_witness :
  exists schema,
    matchSchema (JObj []) Sample.branchProto = Normal schema /\
    props_lookup schema "title" = Some (JStr "Person") /\
    props_lookup Sample.branchProto "__proto__" = Some (JObj []) /\
    props_lookup schema "__proto__" = None.
Proof.
  eexists. split; [reflexivity|]. split.
  - rewrite (matchSchema_keeps_keywords (JObj []) Sample.branchProto _
               "title"); [reflexivity|reflexivity|].
    intros Hin. simpl in Hin. intuition discriminate.
  - split; [reflexivity|].
    rewrite (matchSchema_keeps_keywords (JObj []) Sample.branchProto _
               "__proto__"); [reflexivity|reflexivity|].
    intros Hin. simpl in Hin. intuition discriminate.
Defined.

(** X7: where the [definitions] of the validated schema come from. A
    branch without [properties] gets the definitions table of the
    registry, whatever it has itself; a branch with [properties] and no
    [anyOf] keeps its own [definitions] and gets the table only when it has
    none; a branch with [properties] and [anyOf] is never given the
    table. *)
Theorem matchSchema_definitions (definitions : JSON) (option schema : Obj) :
  matchSchema definitions option = Normal schema ->
  props_lookup schema "definitions" =
  if truthy (get option "properties") then
    if truthy (get option "anyOf") then props_lookup option "definitions"
    else Some (match props_lookup option "definitions" with
               | Some own => own
               | None => definitions
               end)
  else Some definitions.
Proof.
  intros Hs. rewrite (matchSchema_lookup _ _ _ "definitions" Hs).
  rewrite requiresAnyOf_lookup.
  change (String.eqb "required" "definitions") with false.
  change (String.eqb "allOf" "definitions") with false.
  change (String.eqb "anyOf" "definitions") with false.
  change (String.eqb "definitions" "definitions") with true.
  destruct (truthy (get option "properties")); [|done].
  destruct (truthy (get option "anyOf")); [done|].
  by destruct (props_lookup option "definitions").
Qed.

(** X8: what the augmentation of a branch with [properties] adds. Without
    [anyOf] in the branch, the [anyOf] of the schema requires one of the
    property names, one alternative per name in the order of the
    properties, and [allOf] is the one of the branch. With [anyOf] in the
    branch, [anyOf] is the one of the branch and [allOf] is the items of
    the branch's [allOf] followed by that requirement. *)
Theorem matchSchema_augmentation (definitions : JSON) (option schema : Obj) :
  matchSchema definitions option = Normal schema ->
  truthy (get option "properties") = true ->
  let requirement :=
    JArr (List.map (fun key => JObj [("required", JArr [JStr key])])
                   (enumerable_keys (get option "properties"))) in
  if truthy (get option "anyOf") then
    props_lookup schema "anyOf" = props_lookup option "anyOf" /\
    props_lookup schema "allOf"
    = Some (JArr (allOfItems option ++ [JObj [("anyOf", requirement)]]))
  else
    props_lookup schema "anyOf" = Some requirement /\
    props_lookup schema "allOf" = props_lookup option "allOf".
Proof.
  intros Hs Hp requirement.
  pose proof (matchSchema_lookup _ _ _ "anyOf" Hs) as Hany.
  pose proof (matchSchema_lookup _ _ _ "allOf" Hs) as Hall.
  rewrite Hp, requiresAnyOf_lookup in Hany, Hall.
  change (String.eqb "required" "anyOf") with false in Hany.
  change (String.eqb "allOf" "anyOf") with false in Hany.
  change (String.eqb "anyOf" "anyOf") with true in Hany.
  change (String.eqb "required" "allOf") with false in Hall.
  change (String.eqb "allOf" "allOf") with true in Hall.
  change (String.eqb "anyOf" "allOf") with false in Hall.
  change (String.eqb "definitions" "allOf") with false in Hall.
  destruct (truthy (get option "anyOf")); [done|].
  split; [done|]. by destruct (props_lookup option "allOf").
Qed.

Lemma matchSchema_required_witness :
  exists schema,
    matchSchema (JObj []) Sample.branchPerson = Normal schema /\
    props_has Sample.branchPerson "required" = true /\
    props_has schema "required" = false.
Proof.
  eexists. split; [reflexivity|]. split; [reflexivity|].
  apply (matchSchema_required (JObj []) Sample.branchPerson);
    reflexivity.
Defined.

Lemma matchSchema_definitions_witness :
  exists schema,
    matchSchema (JObj [("Foo", JObj [])]) Sample.branchNested
    = Normal schema /\
    props_lookup schema "definitions" = None.
Proof.
  eexists. split; [reflexivity|].
  rewrite (matchSchema_definitions (JObj [("Foo", JObj [])])
             Sample.branchNested); reflexivity.
Defined.

Lemma matchSchema_augmentation_witness :
  exists schema,
    matchSchema (JObj []) Sample.branchNested = Normal schema /\
    props_lookup schema "allOf"
    = Some (JArr [JObj [("required", JArr [JStr "a"])];
                  JObj [("anyOf",
                         JArr [JObj [("required", JArr [JStr "a"])]])]]).
Proof.
  eexists. split; [reflexivity|].
  exact (proj2 (matchSchema_augmentation (JObj []) Sample.branchNested _
                  eq_refl eq_refl)).
Defined.

(* ===================================================================== *)
(** ** More on switching *)
(* ===================================================================== *)

(** X9: a switch to something that is no index of the option list throws a
    [TypeError]: nothing is emitted and the selection is not set. This is
    the case of an option that [parseInt] does not read as a number and of
    a number below [0] or from the length of the list on. *)
Theorem onOptionChange_outside_throws
    (computeDefaults : JSON -> JSON -> JSON -> JSON) (this : Component)
    (option : JSON) :
  (forall j, parseInt option = Some j ->
             j < 0 \/ Z.of_nat (List.length (options (props this))) <= j) ->
  onOptionChange computeDefaults this option = Throw TypeError.
Proof.
  intros Hout. unfold onOptionChange.
  destruct (parseInt option) as [j|]; [|done].
  unfold newOptionOf.
  destruct (array_get (options (props this)) j) as [branch|] eqn:Hj; [|done].
  apply SwitchingFacts.array_get_lt in Hj. destruct (Hout j eq_refl); lia.
Qed.

Lemma onOptionChange_outside_throws_witness :
  onOptionChange Sample.computeDefaults
    (mkComponent (mkProps (JObj []) Sample.branchesAB (JObj [])) 0)
    (JStr "2")
  = Throw TypeError.
Proof.
  apply (onOptionChange_outside_throws Sample.computeDefaults
           (mkComponent (mkProps (JObj []) Sample.branchesAB (JObj [])) 0)
           (JStr "2")).
  intros j Hj. vm_compute in Hj. injection Hj as <-. right. simpl. lia.
Defined.

(** X10: what a switch emits, or the error it throws, depends on the old
    form data only through the question whether they are an object, and
    not at all on the branch that was selected before: no value of the old
    data is carried over. *)
Theorem onOptionChange_ignores_old_data
    (computeDefaults : JSON -> JSON -> JSON -> JSON)
    (this this' : Component) (option : JSON) :
  options (props this') = options (props this) ->
  definitions (props this') = definitions (props this) ->
  guessType (formData (props this')) = guessType (formData (props this)) ->
  emission (onOptionChange computeDefaults this' option)
  = emission (onOptionChange computeDefaults this option).
Proof.
  intros Hoptions Hdefinitions Hdata. unfold onOptionChange.
  destruct (parseInt option) as [j|]; [|done].
  cbv zeta. rewrite Hoptions, Hdefinitions.
  destruct (newOptionOf _ _ j) as [newOption|]; [|done]. cbn [JS.bind].
  unfold discardsOldProperties. rewrite Hdata.
  destruct (if String.eqb (guessType (formData (props this))) "object"
            then _ else _) as [discards|]; [|done].
  cbn [JS.bind]. by destruct (if discards then _ else _).
Qed.

Lemma onOptionChange_ignores_old_data_witness :
  emission (onOptionChange Sample.computeDefaults
              (mkComponent (mkProps (JObj [("a", JStr "kept?")])
                                    [Sample.branchIdA; Sample.branchIdB]
                                    (JObj [])) 0)
              (JNum 1))
  = emission (onOptionChange Sample.computeDefaults
                (mkComponent (mkProps (JObj [])
                                      [Sample.branchIdA; Sample.branchIdB]
                                      (JObj [])) 1)
                (JNum 1)).
Proof.
  apply (onOptionChange_ignores_old_data Sample.computeDefaults
           (mkComponent (mkProps (JObj [])
                                 [Sample.branchIdA; Sample.branchIdB]
                                 (JObj [])) 1)
           (mkComponent (mkProps (JObj [("a", JStr "kept?")])
                                 [Sample.branchIdA; Sample.branchIdB]
                                 (JObj [])) 0)
           (JNum 1)); reflexivity.
Defined.

(** With object data and an object branch, what is emitted is what the
    loop over the other branches leaves of the defaults. *)
Lemma onOptionChange_discards
    (computeDefaults : JSON -> JSON -> JSON -> JSON) (this : Component)
    (option : JSON) (j : nat) (newOption : JSON) :
  parseInt option = Some (Z.of_nat j) ->
  newOptionOf (options (props this)) (definitions (props this)) (Z.of_nat j)
    = Normal newOption ->
  guessType (formData (props this)) = "object" ->
  objectTyped newOption = true ->
  onOptionChange computeDefaults this option =
  JS.bind
    (discardKeys
       (computeDefaults newOption (JObj []) (definitions (props this)))
       (keysToDiscard (remove_at j (options (props this)))))
    (fun emitted => Normal (emitted, mkComponent (props this) (Z.of_nat j))).
Proof.
  intros Hparse Hnew Hdata Htyped.
  unfold onOptionChange. rewrite Hparse. cbv zeta. rewrite Hnew.
  cbn [JS.bind]. unfold discardsOldProperties. rewrite Hdata.
  change (String.eqb "object" "object") with true. cbv iota.
  destruct newOption as [| | | | | |schema]; try discriminate.
  cbn [get_member JS.bind]. unfold objectTyped in Htyped.
  assert ((if is_string "object" (get schema "type")
           then Normal true
           else Normal (truthy (get schema "properties")))
          = Normal true) as ->.
  { destruct (is_string "object" (get schema "type")); [done|].
    simpl in Htyped. by rewrite Htyped. }
  cbn [JS.bind]. by rewrite Nat2Z.id.
Qed.

Lemma keysToDiscard_nil (optionsToDiscard : list Obj) :
  (forall other, In other optionsToDiscard ->
                 truthy (get other "properties") = false) ->
  keysToDiscard optionsToDiscard = [].
Proof.
  unfold keysToDiscard.
  induction optionsToDiscard as [|other rest IH]; intros H; [done|].
  cbn [flat_map]. rewrite (H other) by (by left). rewrite IH; [done|].
  intros other' Hin. apply H. by right.
Qed.

(** X11: when no other branch of the union has [properties], as in a union
    of pointers to definitions, a switch from object data to an object
    branch emits the defaults of the new branch as the default computer
    returns them, whatever they are. *)
Theorem onOptionChange_emits_defaults_unchanged
    (computeDefaults : JSON -> JSON -> JSON -> JSON) (this : Component)
    (option : JSON) (j : nat) (newOption : JSON) :
  parseInt option = Some (Z.of_nat j) ->
  newOptionOf (options (props this)) (definitions (props this)) (Z.of_nat j)
    = Normal newOption ->
  guessType (formData (props this)) = "object" ->
  objectTyped newOption = true ->
  (forall i other, i <> j -> options (props this) !! i = Some other ->
                   truthy (get other "properties") = false) ->
  onOptionChange computeDefaults this option =
  Normal (computeDefaults newOption (JObj []) (definitions (props this)),
          mkComponent (props this) (Z.of_nat j)).
Proof.
  intros Hparse Hnew Hdata Htyped Hothers.
  rewrite (onOptionChange_discards _ _ _ j newOption) by done.
  rewrite keysToDiscard_nil; [done|].
  intros other (i & Hne & Hi)%SwitchingFacts.In_remove_at.
  by apply (Hothers i).
Qed.

Lemma onOptionChange_emits_defaults_unchanged_witness :
  let definitions :=
    JObj [("Foo", JObj [("type", JStr "object");
                        ("properties",
                         JObj [("a", JObj [("default", JStr "x")])])])] in
  let this :=
    mkComponent (mkProps (JObj [("b", JNum 2)])
                         [Sample.refFoo; [("type", JStr "string")]]
                         definitions) 1 in
  onOptionChange Sample.computeDefaults this (JNum 0)
  = Normal (JObj [("a", JStr "x")], mkComponent (props this) 0).
Proof.
  intros definitions this.
  apply (onOptionChange_emits_defaults_unchanged Sample.computeDefaults
           this (JNum 0) 0
           (JObj [("type", JStr "object");
                  ("properties",
                   JObj [("a", JObj [("default", JStr "x")])])]));
    try reflexivity.
  intros [|[|i]] other Hne Hi; [done| |done].
  by injection Hi as <-.
Defined.

(** X12: when the default computer returns [undefined] or [null] for the
    new branch and another branch declares a property, a switch from
    object data to an object branch throws a [TypeError] at the first
    [hasOwnProperty]: nothing is emitted and the selection is not set. *)
Theorem onOptionChange_nullish_defaults_throw
    (computeDefaults : JSON -> JSON -> JSON -> JSON) (this : Component)
    (option : JSON) (j : nat) (newOption : JSON) (i : nat) (key : string) :
  parseInt option = Some (Z.of_nat j) ->
  newOptionOf (options (props this)) (definitions (props this)) (Z.of_nat j)
    = Normal newOption ->
  guessType (formData (props this)) = "object" ->
  objectTyped newOption = true ->
  nullish (computeDefaults newOption (JObj []) (definitions (props this)))
    = true ->
  i <> j ->
  declares (options (props this)) i key ->
  onOptionChange computeDefaults this option = Throw TypeError.
Proof.
  intros Hparse Hnew Hdata Htyped Hnullish Hne Hdeclares.
  rewrite (onOptionChange_discards _ _ _ j newOption) by done.
  assert (In key (keysToDiscard (remove_at j (options (props this)))))
    as Hin by (apply SwitchingFacts.In_keysToDiscard; eauto).
  destruct (keysToDiscard _) as [|key0 keys]; [done|].
  by destruct (computeDefaults _ _ _).
Qed.

Lemma onOptionChange_nullish_defaults_throw_witness :
  onOptionChange (fun _ _ _ => JUndefined)
    (mkComponent (mkProps (JObj []) Sample.branchesAB (JObj [])) 0)
    (JNum 1)
  = Throw TypeError.
Proof.
  apply (onOptionChange_nullish_defaults_throw (fun _ _ _ => JUndefined)
           (mkComponent (mkProps (JObj []) Sample.branchesAB (JObj [])) 0)
           (JNum 1) 1 (JObj Sample.branchB) 0 "a");
    try reflexivity; [lia|].
  exists Sample.branchA. split; [reflexivity|]. split; [reflexivity|].
  simpl. tauto.
Defined.

(* ===================================================================== *)
(** ** Reading an index back *)
(* ===================================================================== *)

Lemma parse_digits_acc (d : Decimal.uint) (p : positive) :
  parse_digits (Some (Z.pos p)) (NilEmpty.string_of_uint d)
  = Some (Z.pos (Pos.of_uint_acc d p)).
Proof.
  revert p.
  induction d; intros p;
    cbn [NilEmpty.string_of_uint parse_digits Pos.of_uint_acc]; [done|..];
    match goal with
    | |- context [digit_of ?c] =>
        let v := eval vm_compute in (digit_of c) in
        change (digit_of c) with v
    end;
    cbv iota; rewrite <- IHd; do 2 f_equal; lia.
Qed.

Lemma parse_digits_zero (d : Decimal.uint) :
  parse_digits (Some 0) (NilEmpty.string_of_uint d)
  = Some (Z.of_N (Pos.of_uint d)).
Proof.
  induction d;
    cbn [NilEmpty.string_of_uint parse_digits Pos.of_uint]; [done|..];
    match goal with
    | |- context [digit_of ?c] =>
        let v := eval vm_compute in (digit_of c) in
        change (digit_of c) with v
    end;
    cbv iota; change (10 * 0 + 0) with 0; [done|..];
    match goal with
    | |- context [10 * 0 + ?k] =>
        let v := eval vm_compute in (10 * 0 + k) in
        change (10 * 0 + k) with v
    end;
    by rewrite parse_digits_acc.
Qed.

Lemma parse_digits_uint (d : Decimal.uint) :
  d <> Decimal.Nil ->
  parse_digits None (NilEmpty.string_of_uint d)
  = Some (Z.of_N (Pos.of_uint d)).
Proof.
  intros Hd. rewrite <- parse_digits_zero. by destruct d.
Qed.

Lemma string_of_uint_first (d : Decimal.uint) :
  d <> Decimal.Nil ->
  exists c r, NilEmpty.string_of_uint d = String c r /\ digit_of c <> None.
Proof.
  intros Hd.
  destruct d; [done|..]; eexists _, _; (split; [reflexivity|]);
    vm_compute; discriminate.
Qed.

(** A string that starts with an ASCII character other than white space
    has no white space to skip. *)
Lemma skip_whitespace_ascii (c : ascii) (r : string) :
  is_whitespace c = false ->
  (nat_of_ascii c <? 128)%nat = true ->
  skip_whitespace (String c r) = String c r.
Proof.
  intros Hws Hlt%Nat.ltb_lt.
  assert (forall m, (128 <= m)%nat -> (nat_of_ascii c =? m)%nat = false)
    as Hne by (intros m Hm; apply Nat.eqb_neq; lia).
  destruct r as [|c2 [|c3 r3]]; cbn [skip_whitespace]; rewrite Hws;
    [done| |]; unfold is_whitespace2, is_whitespace3; cbv zeta;
    rewrite ?(Hne 194%nat), ?(Hne 225%nat), ?(Hne 226%nat), ?(Hne 227%nat),
      ?(Hne 239%nat) by lia; reflexivity.
Qed.

Lemma parseInt_digit_first (c : ascii) (r : string) :
  digit_of c <> None ->
  parseInt (JStr (String c r)) = parse_digits None (String c r).
Proof.
  intros Hc.
  assert (forall x : option Z, option_map (Z.mul 1) x = x) as Hone.
  { intros [x|]; [|done]. simpl. f_equal. by destruct x. }
  destruct c as [[] [] [] [] [] [] [] []];
    first [ by destruct Hc
          | unfold parseInt; cbn [ToString];
            rewrite skip_whitespace_ascii by reflexivity; apply Hone ].
Qed.

Lemma parseInt_minus (r : string) :
  parseInt (JStr (String "-" r)) = option_map Z.opp (parse_digits None r).
Proof.
  unfold parseInt. cbn [ToString].
  rewrite skip_whitespace_ascii by reflexivity. cbv iota beta.
  destruct (parse_digits None r) as [x|]; [|done].
  simpl; f_equal; by destruct x.
Qed.

Lemma parse_digits_pos (p : positive) :
  parse_digits None (NilZero.string_of_uint (Pos.to_uint p))
  = Some (Z.pos p).
Proof.
  pose proof (Unsigned.to_uint_nonnil p) as Hnil.
  pose proof (Unsigned.of_to p) as Hp.
  unfold NilZero.string_of_uint.
  destruct (Pos.to_uint p) eqn:Hd; [done|..];
    rewrite parse_digits_uint by done; by rewrite Hp.
Qed.

(** An integer that prints in plain decimal is read back from what is
    printed. *)
Lemma parseInt_number_to_string (n : Z) :
  Z.abs n < 10 ^ 21 ->
  parseInt (JStr (number_to_string n)) = Some n.
Proof.
  intros Hn. unfold number_to_string.
  destruct (Z.ltb_spec (Z.abs n) (10 ^ 21)) as [_|]; [|lia].
  destruct n as [|p|p]; [reflexivity|..];
    cbn [Z.to_int NilZero.string_of_int].
  - pose proof (Unsigned.to_uint_nonnil p) as Hnil.
    pose proof (parse_digits_pos p) as Hp.
    unfold NilZero.string_of_uint in *.
    destruct (Pos.to_uint p) as [|d|d|d|d|d|d|d|d|d|d] eqn:Hd; [done|..];
      match goal with
      | |- parseInt (JStr (NilEmpty.string_of_uint ?u)) = _ =>
          destruct (string_of_uint_first u) as (c & r & Hs & Hc);
          [done|]; rewrite Hs in *; by rewrite parseInt_digit_first
      end.
  - by rewrite parseInt_minus, parse_digits_pos.
Qed.

(* ===================================================================== *)
(** ** What is rendered *)
(* ===================================================================== *)

Lemma enumOptions_lookup (options : list Obj) (i : nat) :
  enumOptions options !! i =
  option_map (fun option => [("label", optionLabel option i);
                             ("value", JNum (Z.of_nat i))])
             (options !! i).
Proof.
  unfold enumOptions. rewrite list_lookup_imap.
  by destruct (options !! i).
Qed.

(** X13: every branch of the union is offered by the select widget, and
    the value that is offered for it leads back to it: given to
    [onOptionChange] as the number or as the string that prints it, it is
    read as the index of the branch, and a switch that completes sets the
    selection to this index. *)
Theorem offered_value_selects_its_branch
    (computeDefaults : JSON -> JSON -> JSON -> JSON) (this : Component)
    (baseType : JSON) (i : nat) (branch : Obj) :
  Z.of_nat (List.length (options (props this))) <= 10 ^ 21 ->
  options (props this) !! i = Some branch ->
  exists entry,
    widgetEnumOptions (render this baseType) !! i = Some entry /\
    parseInt (get entry "value") = Some (Z.of_nat i) /\
    parseInt (JStr (ToString (get entry "value"))) = Some (Z.of_nat i) /\
    array_get (options (props this)) (Z.of_nat i) = Some branch /\
    forall emitted this',
      onOptionChange computeDefaults this (get entry "value")
      = Normal (emitted, this') ->
      selectedOption this' = Z.of_nat i.
Proof.
  intros Hlen Hbranch. eexists.
  split; [cbn [render widgetEnumOptions];
          by rewrite enumOptions_lookup, Hbranch|].
  change (get _ "value") with (JNum (Z.of_nat i)).
  assert (parseInt (JNum (Z.of_nat i)) = Some (Z.of_nat i)) as Hparse.
  { apply (parseInt_number_to_string (Z.of_nat i)).
    apply lookup_lt_Some in Hbranch. lia. }
  split; [done|]. split; [done|].
  split; [apply SwitchingFacts.array_get_Some; by rewrite Nat2Z.id; split; [lia|]|].
  intros emitted this' Hswitch.
  apply SwitchingFacts.onOptionChange_inv in Hswitch
    as (j & branch' & Hj & _ & ->).
  cbn [selectedOption]. congruence.
Qed.

Lemma offered_value_selects_its_branch_witness :
  let this :=
    mkComponent (mkProps (JObj []) Sample.branchesAB (JObj [])) 0 in
  exists entry,
    widgetEnumOptions (render this JUndefined) !! 1%nat = Some entry /\
    parseInt (get entry "value") = Some 1.
Proof.
  intros this.
  destruct (offered_value_selects_its_branch Sample.computeDefaults this
              JUndefined 1 Sample.branchB)
    as (entry & Hentry & Hparse & _); [by vm_compute|reflexivity|].
  by exists entry.
Defined.

(** X14: the select widget is offered one entry per branch, and two
    branches without a title never get the same label. *)
Theorem default_labels_distinct (options : list Obj) (i j : nat)
    (option option' : Obj) :
  Z.of_nat (List.length (options)) < 10 ^ 21 ->
  options !! i = Some option ->
  options !! j = Some option' ->
  truthy (get option "title") = false ->
  truthy (get option' "title") = false ->
  i <> j ->
  List.length (enumOptions options) = List.length options /\
  exists entry entry',
    enumOptions options !! i = Some entry /\
    enumOptions options !! j = Some entry' /\
    get entry "label" <> get entry' "label".
Proof.
  intros Hlen Hi Hj Htitle Htitle' Hne.
  split; [apply length_imap|].
  eexists _, _. rewrite !enumOptions_lookup, Hi, Hj.
  split; [done|]. split; [done|].
  change (optionLabel option i <> optionLabel option' j).
  unfold optionLabel. rewrite Htitle, Htitle'.
  intros [= Heq].
  apply lookup_lt_Some in Hi, Hj.
  pose proof (parseInt_number_to_string (Z.of_nat i + 1)) as Hpi.
  pose proof (parseInt_number_to_string (Z.of_nat j + 1)) as Hpj.
  rewrite Heq, Hpj in Hpi by lia.
  assert (Some (Z.of_nat j + 1) = Some (Z.of_nat i + 1)) as [= ?]
    by (apply Hpi; lia).
  lia.
Qed.

Lemma default_labels_distinct_witness :
  exists entry entry',
    enumOptions Sample.branchesAB !! 0%nat = Some entry /\
    enumOptions Sample.branchesAB !! 1%nat = Some entry' /\
    get entry "label" <> get entry' "label".
Proof.
  apply (default_labels_distinct Sample.branchesAB 0 1
           Sample.branchA Sample.branchB);
    first [by vm_compute | reflexivity | lia].
Defined.

(** X15: the schema that is rendered for a branch has the own keywords of
    the branch with their values, with two exceptions for a branch
    without a truthy [type], whose schema is built with [Object.assign]:
    its [type] is the base type of the union, and an own [__proto__] of
    the branch is no own property of it. *)
Theorem optionSchema_keywords (option : Obj) (baseType : JSON) :
  get (optionSchema option baseType) "type"
  = (if truthy (get option "type") then get option "type" else baseType) /\
  forall k, k <> "type" ->
            props_lookup (optionSchema option baseType) k
            = if String.eqb "__proto__" k && negb (truthy (get option "type"))
              then None
              else props_lookup option k.
Proof.
  unfold optionSchema, get.
  destruct (truthy _) eqn:Htype.
  - split; [done|]. intros k _. by rewrite andb_false_r.
  - split.
    + by rewrite PropsFacts.props_lookup_assign.
    + intros k Hk. rewrite !PropsFacts.props_lookup_assign, andb_true_r.
      destruct (String.eqb "__proto__" k); [done|].
      cbn [props_lookup find fst snd option_map].
      destruct (String.eqb_spec "type" k) as [<-|_]; [done|].
      by destruct (props_lookup option k).
Qed.

Lemma optionSchema_keywords_witness :
  get (optionSchema Sample.branchProto (JStr "object")) "type"
  = JStr "object" /\
  props_lookup (optionSchema Sample.branchProto (JStr "object")) "title"
  = Some (JStr "Person") /\
  props_lookup (optionSchema Sample.branchProto (JStr "object")) "__proto__"
  = None.
Proof.
  destruct (optionSchema_keywords Sample.branchProto (JStr "object"))
    as [Htype Hrest].
  split; [exact Htype|]. split; by rewrite Hrest.
Defined.

Lemma getMatchingOption_lookup (isValid : JSON -> JSON -> bool)
    (formData : JSON) (options : list Obj) (definitions : JSON) (m : nat) :
  getMatchingOption isValid formData options definitions = Normal m ->
  options <> [] ->
  exists branch, options !! m = Some branch.
Proof.
  intros Hm Hoptions.
  destruct (MatchingFacts.getMatchingOption_from_spec
              isValid formData definitions options 0 m Hm)
    as [(k & option & -> & Hk & _)|[-> _]].
  - by exists option.
  - destruct options as [|branch options]; [done|]. by exists branch.
Qed.

Lemma array_get_of_nat {A : Type} (a : list A) (m : nat) :
  array_get a (Z.of_nat m) = a !! m.
Proof.
  unfold array_get. destruct (Z.ltb_spec (Z.of_nat m) 0); [lia|].
  by rewrite Nat2Z.id.
Qed.

Lemma reachable_selection (isValid : JSON -> JSON -> bool)
    (computeDefaults : JSON -> JSON -> JSON -> JSON) (this : Component) :
  reachable isValid computeDefaults this ->
  options (props this) <> [] ->
  exists branch,
    array_get (options (props this)) (selectedOption this) = Some branch.
Proof.
  destruct 1 as [p this Hc|this nextProps this' _ Hr
                 |this option emitted this' p' _ Hc [_ Hlen]].
  - unfold constructor in Hc.
    destruct (getMatchingOption _ _ _ _) as [m|] eqn:Hm; [|discriminate].
    injection Hc as <-. cbn [props selectedOption]. intros Hoptions.
    rewrite array_get_of_nat. by eapply getMatchingOption_lookup.
  - apply componentWillReceiveProps_adopts_match in Hr as (m & Hm & ->).
    cbn [props selectedOption]. intros Hoptions.
    rewrite array_get_of_nat. by eapply getMatchingOption_lookup.
  - apply SwitchingFacts.onOptionChange_inv in Hc
      as (j & branch & _ & Hj & ->).
    cbn [props selectedOption] in *. intros _.
    apply SwitchingFacts.array_get_Some in Hj as [Hj Hbranch].
    apply lookup_lt_Some in Hbranch.
    destruct (lookup_lt_is_Some_2 (options p') (Z.to_nat j)) as [branch' ?];
      [lia|].
    exists branch'. by apply SwitchingFacts.array_get_Some.
Qed.

(** X16: in every state that an instance can be in, the schema field is
    rendered exactly when the union has a branch, and it is then rendered
    for a branch of the union, the one at the selection. *)
Theorem render_field_of_reachable_state (isValid : JSON -> JSON -> bool)
    (computeDefaults : JSON -> JSON -> JSON -> JSON) (this : Component)
    (baseType : JSON) :
  reachable isValid computeDefaults this ->
  (options (props this) = [] ->
   fieldSchema (render this baseType) = None) /\
  (options (props this) <> [] ->
   exists branch,
     options (props this) !! Z.to_nat (selectedOption this) = Some branch /\
     fieldSchema (render this baseType)
     = Some (optionSchema branch baseType)).
Proof.
  intros Hreach. cbn [render fieldSchema]. split.
  - intros ->. unfold array_get.
    by destruct (selectedOption this <? 0).
  - intros Hoptions.
    destruct (reachable_selection _ _ _ Hreach Hoptions) as [branch Hbranch].
    exists branch. rewrite Hbranch. split; [|done].
    by apply SwitchingFacts.array_get_Some in Hbranch as [_ ?].
Qed.

Lemma render_field_of_reachable_state_witness :
  let this :=
    mkComponent (mkProps (JObj [("b", JNum 2)]) Sample.branchesAB (JObj []))
                1 in
  fieldSchema (render this (JStr "object")) = Some Sample.branchB.
Proof.
  intros this.
  destruct (render_field_of_reachable_state Sample.isValid
              Sample.computeDefaults this (JStr "object")) as [_ Hfield].
  - by apply (reachable_constructor _ _
                (mkProps (JObj [("b", JNum 2)]) Sample.branchesAB (JObj []))).
  - destruct Hfield as (branch & Hbranch & ->); [done|].
    by injection Hbranch as <-.
Defined.

(* ===================================================================== *)
(** ** The schema that is validated is a new object *)
(* ===================================================================== *)

(** X17: over the store, the schema that is handed to the validator for a
    branch is an object that did not exist before: it is never the branch
    itself, the definitions table, or any other object of the caller. *)
Theorem matchSchema_returns_new_object
    (definitions option : Store.value) (st : list Store.cell)
    (schema : Store.value) :
  (Store.matchSchema definitions option st).1 = Store.Returned schema ->
  forall l c, st !! l = Some c -> schema <> Store.VRef l.
Proof.
  intros Hrun l c Hl ->.
  destruct (StoreFacts.keeps_matchSchema (List.length st) definitions option
              st (Nat.le_refl _)) as [_ Hfresh].
  specialize (Hfresh _ Hrun). simpl in Hfresh.
  apply lookup_lt_Some in Hl. lia.
Qed.

Lemma matchSchema_returns_new_object_witness :
  exists schema,
    (Store.matchSchema (Store.VRef 9) (Store.VRef 7) SampleStore.store3).1
    = Store.Returned schema /\
    schema <> Store.VRef 7.
Proof.
  eexists. split; [reflexivity|].
  apply (matchSchema_returns_new_object (Store.VRef 9) (Store.VRef 7)
           SampleStore.store3 _ eq_refl 7%nat
           (Store.CObject [("properties", Store.VRef 2);
                           ("anyOf", Store.VRef 4);
                           ("allOf", Store.VRef 5);
                           ("required", Store.VRef 6)])).
  reflexivity.
Defined.

(* ===================================================================== *)
(** ** Matching when no branch validates *)
(* ===================================================================== *)

Lemma getMatchingOption_from_no_match (isValid : JSON -> JSON -> bool)
    (formData definitions : JSON) (rest : list Obj) (i : nat) :
  (forall option, In option rest ->
                  optionMatches isValid formData definitions option = false) ->
  getMatchingOption_from isValid formData definitions i rest =
  if existsb augmentationThrows rest then Throw TypeError else Normal 0%nat.
Proof.
  revert i. induction rest as [|o rest IH]; intros i Hnone; [done|].
  cbn [getMatchingOption_from existsb].
  pose proof (Hnone o (or_introl eq_refl)) as Ho. unfold optionMatches in Ho.
  destruct (matchSchema definitions o) as [schema|e] eqn:Hs; cbn [JS.bind].
  - assert (augmentationThrows o = false) as ->.
    { destruct (augmentationThrows o) eqn:Hthrows; [|done].
      assert (matchSchema definitions o = Throw TypeError) as Hthrow
        by (by apply matchSchema_throws_iff).
      congruence. }
    rewrite Ho. apply IH. intros option Hin. apply Hnone. by right.
  - apply matchSchema_throws_iff in Hs as [-> ->]. done.
Qed.

(** C3, as stated, fails: no branch of the list validates [{}], and the
    call does not return [0]; it throws, on the branch whose [allOf] is
    no array. *)
Lemma no_match_may_throw :
  (forall i option,
      [Sample.branchA; Sample.branchMalformed] !! i = Some option ->
      optionMatches Sample.isValid (JObj []) (JObj []) option = false) /\
  getMatchingOption Sample.isValid (JObj [])
                    [Sample.branchA; Sample.branchMalformed] (JObj [])
  = Throw TypeError.
Proof.
  split; [|reflexivity].
  intros [|[|i]] option Hi; simpl in Hi; try discriminate;
    injection Hi as <-; reflexivity.
Qed.

(** C3, amended: for every branch list, form data ([undefined] included)
    and definitions table, if no branch validates the form data once
    augmented, [getMatchingOption] returns [0], unless some branch has
    [properties], [anyOf] and a truthy [allOf] that is no array: then it
    throws a [TypeError]. *)
Theorem getMatchingOption_no_match
    (isValid : JSON -> JSON -> bool) (formData : JSON) (options : list Obj)
    (definitions : JSON) :
  (forall i option,
      options !! i = Some option ->
      optionMatches isValid formData definitions option = false) ->
  getMatchingOption isValid formData options definitions =
  if existsb augmentationThrows options then Throw TypeError
  else Normal 0%nat.
Proof.
  intros Hnone. apply getMatchingOption_from_no_match.
  intros option [i Hi]%list_elem_of_In%list_elem_of_lookup. by eapply Hnone.
Qed.

Lemma getMatchingOption_no_match_witness :
  (forall i option,
      Sample.branchesAB !! i = Some option ->
      optionMatches Sample.isValid JUndefined (JObj []) option = false) /\
  getMatchingOption Sample.isValid JUndefined Sample.branchesAB (JObj [])
    = Normal 0%nat.
Proof.
  assert (forall i option,
             Sample.branchesAB !! i = Some option ->
             optionMatches Sample.isValid JUndefined (JObj []) option = false)
    as Hnone.
  { intros [|[|i]] option Hi; simpl in Hi; try discriminate;
      injection Hi as <-; reflexivity. }
  split; [exact Hnone|].
  exact (getMatchingOption_no_match Sample.isValid JUndefined
           Sample.branchesAB (JObj []) Hnone).
Defined.

(* ===================================================================== *)
(** ** What the loop over the other branches leaves of the defaults *)
(* ===================================================================== *)

Lemma withoutKeys_nil (o : Obj) : withoutKeys [] o = o.
Proof.
  induction o as [|kv o IH]; [done|].
  change (withoutKeys [] (kv :: o)) with (kv :: withoutKeys [] o).
  by rewrite IH.
Qed.

Lemma withoutIndices_nil (l : list JSON) : withoutIndices [] l = l.
Proof.
  unfold withoutIndices. apply list_eq. intros p.
  rewrite list_lookup_imap. by destruct (l !! p).
Qed.

Lemma withoutIndices_cons (key : string) (keys : list string)
    (l : list JSON) :
  withoutIndices (key :: keys) l =
  withoutIndices keys
    (match index_of_key key with
     | Some i => <[N.to_nat i := JUndefined]> l
     | None => l
     end).
Proof.
  unfold withoutIndices. apply list_eq. intros p.
  rewrite !list_lookup_imap. unfold namesIndex. cbn [existsb].
  destruct (index_of_key key) as [i|]; [|done].
  destruct (decide (p = N.to_nat i)) as [->|Hne].
  - rewrite N2Nat.id, N.eqb_refl. cbn [orb].
    destruct (l !! N.to_nat i) as [x|] eqn:Hl.
    + rewrite list_lookup_insert_eq by (by eapply lookup_lt_Some).
      cbn. by destruct (existsb _ keys).
    + rewrite list_insert_ge by (by apply lookup_ge_None).
      by rewrite Hl.
  - rewrite list_lookup_insert_ne by done.
    assert ((i =? N.of_nat p)%N = false) as ->; [|done].
    apply N.eqb_neq. intros ->. by rewrite Nat2N.id in Hne.
Qed.

(** The loop throws on the first key that the value refuses; otherwise it
    leaves the value without the keys. *)
Lemma discardKeys_spec (v : JSON) (keys : list string) :
  discardKeys v keys =
  if existsb (refusesDiscard v) keys then Throw TypeError
  else Normal (strippedOf keys v).
Proof.
  destruct v as [| |b|n|s|l|o].
  - by destruct keys.
  - by destruct keys.
  - induction keys as [|key keys IH]; [done|exact IH].
  - induction keys as [|key keys IH]; [done|exact IH].
  - induction keys as [|key keys IH]; [done|].
    cbn [discardKeys existsb refusesDiscard discardKey].
    unfold lengthOrIndex at 1.
    destruct (String.eqb key "length"); [done|]. cbn [orb].
    destruct (index_of_key key) as [i|]; [|exact IH].
    destruct (i <? N.of_nat (String.length s))%N; [done|exact IH].
  - revert l. induction keys as [|key keys IH]; intros l.
    + cbn. by rewrite withoutIndices_nil.
    + cbn [discardKeys existsb refusesDiscard discardKey strippedOf].
      rewrite withoutIndices_cons.
      destruct (String.eqb key "length"); [done|]. cbn [orb].
      destruct (index_of_key key) as [i|]; [|exact (IH l)].
      destruct (N.ltb_spec i (N.of_nat (List.length l))).
      * exact (IH _).
      * rewrite list_insert_ge by lia. exact (IH l).
  - destruct (props_has o "hasOwnProperty") eqn:Hshadow.
    + destruct keys as [|key keys]; [cbn; by rewrite withoutKeys_nil|].
      cbn. by rewrite Hshadow.
    + rewrite SwitchingFacts.discardKeys_object by done.
      assert (existsb (refusesDiscard (JObj o)) keys = false) as ->; [|done].
      induction keys as [|key keys IH]; [done|]. cbn. by rewrite Hshadow.
Qed.

(** What is left holds nothing under a key that was visited. *)
Lemma holds_strippedOf (v : JSON) (keys : list string) (key : string) :
  In key keys ->
  existsb (refusesDiscard v) keys = false ->
  holds (strippedOf keys v) key = false.
Proof.
  intros Hin Hrefuses.
  assert (refusesDiscard v key = false) as Hkey.
  { destruct (refusesDiscard v key) eqn:Hr; [|done].
    assert (existsb (refusesDiscard v) keys = true); [|congruence].
    apply existsb_exists. eauto. }
  destruct v as [| |b|n|s|l|o]; try done.
  - cbn in *. rewrite Hkey. cbn [orb].
    destruct (index_of_key key) as [i|] eqn:Hi; [|done].
    unfold withoutIndices. rewrite list_lookup_imap.
    destruct (l !! N.to_nat i); [|done]. cbn.
    assert (namesIndex keys (N.to_nat i) = true) as ->; [|done].
    apply existsb_exists. exists key. split; [done|].
    rewrite Hi, N2Nat.id. apply N.eqb_refl.
  - cbn. destruct (props_has (withoutKeys keys o) key) eqn:Hhas; [|done].
    apply PropsFacts.props_has_lookup in Hhas as [x Hx].
    apply PropsFacts.props_lookup_In in Hx.
    by apply SwitchingFacts.props_keys_withoutKeys in Hx as [_ Hnot].
Qed.





(** C10: whatever a switch that completes emits, it holds nothing under a
    property name that a branch other than the selected one declares in
    its [properties]. Where the data and the new branch are both
    object-typed, what is emitted are the computed defaults without these
    names, whether or not the new branch declares such a name too and
    its defaults have a value for it; in every other case [undefined] is
    emitted. *)
Theorem onOptionChange_emits_no_foreign_key
    (computeDefaults : JSON -> JSON -> JSON -> JSON) (this : Component)
    (option : JSON) (emitted : JSON) (this' : Component) :
  onOptionChange computeDefaults this option = Normal (emitted, this') ->
  forall i key,
    Z.of_nat i <> selectedOption this' ->
    declares (options (props this)) i key ->
    holds emitted key = false.
Proof.
  intros Hswitch i key Hne Hdeclares.
  pose proof Hswitch as Hinv.
  apply SwitchingFacts.onOptionChange_inv in Hinv
    as (j & branch & Hparse & [Hj _]%SwitchingFacts.array_get_Some & ->).
  cbn [selectedOption] in Hne.
  revert Hswitch. unfold onOptionChange. rewrite Hparse. cbv zeta.
  destruct (newOptionOf _ _ j) as [newOption|]; [|discriminate].
  cbn [JS.bind].
  destruct (discardsOldProperties _ newOption) as [[|]|]; cbn [JS.bind];
    [|by intros [= <-]|discriminate].
  rewrite discardKeys_spec.
  destruct (existsb _ _) eqn:Hrefuses; cbn [JS.bind]; [discriminate|].
  intros [= <-]. apply holds_strippedOf; [|done].
  apply SwitchingFacts.In_keysToDiscard. exists i. split; [lia|done].
Qed.

(** The instance of C10 with a shared property name: both branches declare
    [id]; the defaults of the new branch are [{id: "x"}], and [{}] is
    emitted. *)
Lemma onOptionChange_emits_no_foreign_key_witness :
  let this :=
    mkComponent
      (mkProps (JObj [("id", JStr "y"); ("b", JNum 1)])
               [Sample.branchIdA; Sample.branchIdB] (JObj [])) 1 in
  Sample.computeDefaults (JObj Sample.branchIdA) (JObj [])
                         (definitions (props this))
    = JObj [("id", JStr "x")] /\
  emission (onOptionChange Sample.computeDefaults this (JNum 0))
    = Normal (JObj []) /\
  declares (options (props this)) 1 "id" /\
  holds (JObj []) "id" = false.
Proof.
  intros this.
  assert (declares (options (props this)) 1 "id") as Hdeclares.
  { exists Sample.branchIdB. split; [reflexivity|]. split; [reflexivity|].
    simpl. tauto. }
  split; [reflexivity|]. split; [reflexivity|]. split; [exact Hdeclares|].
  apply (onOptionChange_emits_no_foreign_key Sample.computeDefaults this
           (JNum 0) (JObj []) (mkComponent (props this) 0) eq_refl 1 "id");
    [discriminate|exact Hdeclares].
Defined.
